(** * petersplain: the timestamp-to-subtitle segmenter of [src/main.py]

    A shallow embedding of [create_subtitle_list] (and of the part of the
    [__main__] block that surrounds it), followed by the properties the
    specification states about them.

    Python values are modelled as the code has them:
    - a [str] is a list of Unicode code points,
    - a timestamp is a binary64 float (the kernel's primitive floats),
    - an exception is a value of [exn] carried by [result]. *)

From Stdlib Require Import String Ascii.
From Stdlib Require Import List Bool Arith Lia NArith ZArith Sorted.
From Stdlib Require Import Floats.
From Stdlib Require DecimalString.
Import ListNotations.

Set Implicit Arguments.
Set Warnings "-inexact-float".

(** ** Python values *)

Module Py.

(** The exceptions the modelled code can raise. *)
Inductive exn : Type :=
| IndexError           (* list index out of range, random.choice on [] *)
| UnboundLocalError    (* a local read before any assignment *)
| ValueError           (* max() of an empty iterable *)
| Exception (msg : string)
| ExternalError (msg : string).  (* failure of the speech service *)

Inductive result (A : Type) : Type :=
| Ok (a : A)
| Raise (e : exn).
Arguments Raise {A} e.

Definition bind {A B} (r : result A) (k : A -> result B) : result B :=
  match r with
  | Ok a => k a
  | Raise e => Raise e
  end.

Definition codepoint : Type := N.
Definition str : Type := list codepoint.

(** CPython's [_PyUnicode_IsWhitespace]. *)
Definition is_whitespace (c : codepoint) : bool :=
  ((9 <=? c) && (c <=? 13) || (28 <=? c) && (c <=? 32)
   || (c =? 133) || (c =? 160) || (c =? 5760)
   || (8192 <=? c) && (c <=? 8202)
   || (c =? 8232) || (c =? 8233) || (c =? 8239) || (c =? 8287)
   || (c =? 12288))%N.

(** [s.isspace()]: at least one character and all of them whitespace. *)
Definition isspace (s : str) : bool :=
  match s with
  | [] => false
  | _ => forallb is_whitespace s
  end.

(** [s == t] on strings. *)
Fixpoint str_eqb (s t : str) : bool :=
  match s, t with
  | [], [] => true
  | c :: s', d :: t' => (c =? d)%N && str_eqb s' t'
  | _, _ => false
  end.

(** ["".join(ws)]. *)
Definition join (ws : list str) : str := concat ws.

Fixpoint lstrip (s : str) : str :=
  match s with
  | [] => []
  | c :: s' => if is_whitespace c then lstrip s' else s
  end.

Definition rstrip (s : str) : str := rev (lstrip (rev s)).

(** [s.strip()] with no argument. *)
Definition strip (s : str) : str := rstrip (lstrip s).

(** Truth value of a sequence: non-empty. *)
Definition truthy {A} (l : list A) : bool :=
  match l with
  | [] => false
  | _ => true
  end.

(** [xs[i]] for an index [i >= 0]. *)
Definition getitem {A} (xs : list A) (i : nat) : result A :=
  match nth_error xs i with
  | Some x => Ok x
  | None => Raise IndexError
  end.

(** [max(xs)] over floats: the first maximal item, [ValueError] on an
    empty iterable. *)
Definition max (xs : list float) : result float :=
  match xs with
  | [] => Raise ValueError
  | x :: rest =>
      Ok (fold_left (fun m y => if (m <? y)%float then y else m) rest x)
  end.

(** A string literal as a Python [str]. *)
Fixpoint of_string (s : string) : str :=
  match s with
  | EmptyString => []
  | String c s' => N_of_ascii c :: of_string s'
  end.

(** A string literal as the list of its one-character strings. *)
Definition chars_of (s : string) : list str :=
  map (fun c => [c]) (of_string s).

End Py.

Import Py.

Notation "x <- c1 ;; c2" := (Py.bind c1 (fun x => c2))
  (at level 61, c1 at next level, right associativity).

(** ** The data model *)

(** The [alignment] dict handed to [create_subtitle_list]. *)
Record alignment : Type := Alignment {
  characters : list str;
  character_start_times_seconds : list float;
  character_end_times_seconds : list float
}.

(** A subtitle entry is the tuple [(text, start_time, duration)]. *)
Definition SubtitleEntry : Type := (str * float * float)%type.

Definition entry_text (e : SubtitleEntry) : str := fst (fst e).
Definition entry_start (e : SubtitleEntry) : float := snd (fst e).
Definition entry_duration (e : SubtitleEntry) : float := snd e.

(** ** [create_subtitle_list] *)

(** The one-character string [" "]. *)
Definition space : str := [32%N].

(** The local variables of the loop: [subtitles], [words], [start_time]. *)
Record locals : Type := Locals {
  subtitles : list SubtitleEntry;
  words : list str;
  start_time : option float
}.

Definition initial : locals := Locals [] [] None.

(** [char.isspace() and char == " "] (line 93). *)
Definition is_separator (char : str) : bool :=
  isspace char && str_eqb char space.

(** Lines 96-101 and 119-123: build the entry and append it when
    [duration > 0 and text.strip()]. *)
Definition emit (subs : list SubtitleEntry) (ws : list str)
    (start end_time : float) : list SubtitleEntry :=
  let text := join ws in
  let duration := (end_time - start)%float in
  if (0 <? duration)%float && truthy (strip text)
  then subs ++ [(text, start, duration)]
  else subs.

(** One iteration of the [for i, char in enumerate(...)] loop
    (lines 93-110). *)
Definition loop_body (a : alignment) (i : nat) (char : str) (st : locals)
    : result locals :=
  if is_separator char then
    match truthy (words st), start_time st with
    | true, Some start =>
        end_time <- getitem (character_start_times_seconds a) i ;;
        Ok (Locals (emit (subtitles st) (words st) start end_time) [] None)
    | _, _ => Ok st
    end
  else
    start' <-
      match start_time st with
      | None =>
          if i <? length (character_start_times_seconds a)
          then s <- getitem (character_start_times_seconds a) i ;; Ok (Some s)
          else Ok None
      | Some s => Ok (Some s)
      end ;;
    Ok (Locals (subtitles st) (words st ++ [char]) start').

(** The loop over [chars], whose first element has index [i]. *)
Fixpoint scan (a : alignment) (i : nat) (chars : list str) (st : locals)
    : result locals :=
  match chars with
  | [] => Ok st
  | char :: rest =>
      st' <- loop_body a i char st ;;
      scan a (S i) rest st'
  end.

(** The value of the loop variable [i] once the loop is over: unbound when
    the loop body never ran. *)
Definition last_index (chars : list str) : option nat :=
  match chars with
  | [] => None
  | _ :: rest => Some (length rest)
  end.

(** Lines 112-125: the trailing word, then [return subtitles]. *)
Definition finish (a : alignment) (st : locals)
    : result (list SubtitleEntry) :=
  match truthy (words st), start_time st with
  | true, Some start =>
      match last_index (characters a) with
      | None => Raise UnboundLocalError
      | Some i =>
          if i <? length (character_end_times_seconds a) then
            end_time <- getitem (character_end_times_seconds a) i ;;
            Ok (emit (subtitles st) (words st) start end_time)
          else Ok (subtitles st)
      end
  | _, _ => Ok (subtitles st)
  end.

Definition create_subtitle_list (a : alignment)
    : result (list SubtitleEntry) :=
  st <- scan a 0 (characters a) initial ;;
  finish a st.

(** ** The [__main__] block *)

(** What the program does to the outside world, in the order it does it.
    Calls into the speech service and the video library are recorded as
    events; what the video library computes is not modelled. *)
Inductive event : Type :=
| EvSynthesize (text voice_id : string)  (* convert_with_timestamps, line 37 *)
| EvPrint (line : string)
| EvListTemplates                        (* os.listdir("templates") *)
| EvOpenVideo (path : string)            (* VideoFileClip, line 203 *)
| EvCrop                                 (* crop_video_to_tiktok *)
| EvAddImage                             (* add_peter_image *)
| EvSubtitleClip (e : SubtitleEntry)     (* create_subtitle_clip *)
| EvSetDuration (seconds : float)        (* video.with_duration *)
| EvWriteTempAudio (audio : list N)
| EvLoadAudio
| EvRemoveTempAudio
| EvCompose
| EvWriteVideo (path : string)           (* write_videofile, line 230 *)
| EvClose.

(** The environment of one run: the answer of the speech service (audio
    already decoded), the listing of [templates/], and the draw of
    [random.choice]. *)
Record world : Type := World {
  speech : string -> string -> result (list N * alignment);
  templates : list string;
  draw : nat
}.

(** A computation that logs events and may raise. *)
Definition prog (A : Type) : Type := list event * result A.

Definition ret {A} (x : A) : prog A := ([], Ok x).

Definition tell (ev : event) : prog unit := ([ev], Ok tt).

Definition lift {A} (r : result A) : prog A := ([], r).

Definition seq {A B} (m : prog A) (k : A -> prog B) : prog B :=
  match snd m with
  | Ok x => (fst m ++ fst (k x), snd (k x))
  | Raise e => (fst m, Raise e)
  end.

Notation "x <~ m ;; k" := (seq m (fun x => k))
  (at level 61, m at next level, right associativity).
Notation "m ;;; k" := (seq m (fun _ => k))
  (at level 61, right associativity).

Definition PETER_GRIFFIN_VOICE_ID : string := "bPz3YmDohVKx47H3m07y".

Definition string_of_nat (n : nat) : string :=
  DecimalString.NilZero.string_of_uint (Nat.to_uint n).

(** Lines 24-56. *)
Definition generate_voice_with_timestamps (w : world)
    (text voice_id : string) : prog (list N * alignment) :=
  tell (EvSynthesize text voice_id) ;;;
  response <~ lift (speech w text voice_id) ;;
  tell (EvPrint ("Generated audio with "
                 ++ string_of_nat (length (characters (snd response)))
                 ++ " word timestamps")) ;;;
  ret response.

(** [random.choice(seq)]. *)
Definition random_choice {A} (pick : nat) (xs : list A) : result A :=
  match xs with
  | [] => Raise IndexError
  | _ => getitem xs (pick mod length xs)
  end.

(** Lines 198-201: [try: ... except IndexError: raise Exception(...)]. *)
Definition choose_template (w : world) : prog string :=
  tell EvListTemplates ;;;
  lift match random_choice (draw w) (templates w) with
       | Raise IndexError => Raise (Exception "No templates found in templates/")
       | r => r
       end.

(** Line 216. *)
Definition last_subtitle_end (subs : list SubtitleEntry) : result float :=
  Py.max (map (fun e => (entry_start e + entry_duration e)%float) subs).

Fixpoint tell_all (evs : list event) : prog unit :=
  match evs with
  | [] => ret tt
  | ev :: rest => tell ev ;;; tell_all rest
  end.

(** Lines 189-240.  What runs before them (loading the environment,
    creating the directories and the client at lines 13-18, parsing the
    arguments at lines 179-187) is not part of the trace. *)
Definition main (w : world) (text output : string) : prog unit :=
  response <~ generate_voice_with_timestamps w text PETER_GRIFFIN_VOICE_ID ;;
  let audio := fst response in
  let timestamps := snd response in
  subs <~ lift (create_subtitle_list timestamps) ;;
  tell (EvPrint ("Generated " ++ string_of_nat (length subs)
                 ++ " subtitle entries")) ;;;
  video_path <~ choose_template w ;;
  tell (EvOpenVideo ("templates/" ++ video_path)) ;;;
  tell EvCrop ;;;
  tell EvAddImage ;;;
  tell_all (map EvSubtitleClip subs) ;;;
  last_end <~ lift (last_subtitle_end subs) ;;
  tell (EvSetDuration (last_end + 2)%float) ;;;
  tell (EvWriteTempAudio audio) ;;;
  tell EvLoadAudio ;;;
  tell EvRemoveTempAudio ;;;
  tell EvCompose ;;;
  tell (EvWriteVideo ("out/" ++ output)) ;;;
  tell EvClose.

(** The speech request. *)
Definition is_synthesis (ev : event) : bool :=
  match ev with
  | EvSynthesize _ _ => true
  | _ => false
  end.

(** Loading, composing and exporting video. *)
Definition is_rendering (ev : event) : bool :=
  match ev with
  | EvOpenVideo _ | EvCrop | EvAddImage | EvSubtitleClip _
  | EvSetDuration _ | EvCompose | EvWriteVideo _ => true
  | _ => false
  end.

Definition is_expensive (ev : event) : bool :=
  is_synthesis ev || is_rendering ev.

(** ** Words of the input: where an entry comes from *)

(** [run chars j n] is [chars[j : j+n]]. *)
Definition run (chars : list str) (j n : nat) : list str :=
  firstn n (skipn j chars).

Definition nonspace (c : str) : Prop := c <> space.

(** Position [j] starts the input or follows a [" "]. *)
Definition left_boundary (chars : list str) (j : nat) : Prop :=
  j = 0 \/ exists k, j = S k /\ nth_error chars k = Some space.

(** Position [k] ends the input or holds a [" "]. *)
Definition right_boundary (chars : list str) (k : nat) : Prop :=
  k = length chars \/ nth_error chars k = Some space.

(** The time at which the word [chars[j : j+n]] is closed: the start time
    of the [" "] that follows it, or the end time of the last character of
    the input. *)
Definition closes (a : alignment) (j n : nat) (t : float) : Prop :=
  (nth_error (characters a) (j + n) = Some space /\
   nth_error (character_start_times_seconds a) (j + n) = Some t)
  \/
  (j + n = length (characters a) /\
   nth_error (character_end_times_seconds a) (j + n - 1) = Some t).

(** The entry's validity rule, [duration > 0 and text.strip()]. *)
Definition valid_entry (e : SubtitleEntry) : Prop :=
  (0 <? entry_duration e)%float = true /\ strip (entry_text e) <> [].

(** Entry [e] is the word that occupies [chars[j : j+n]], for
    [seg = (j, n)]. *)
Record word_at (a : alignment) (seg : nat * nat) (e : SubtitleEntry)
    : Prop := WordAt {
  wa_len : 0 < snd seg /\ fst seg + snd seg <= length (characters a);
  wa_nonspace : Forall nonspace (run (characters a) (fst seg) (snd seg));
  wa_left : left_boundary (characters a) (fst seg);
  wa_right : right_boundary (characters a) (fst seg + snd seg);
  wa_text : entry_text e = join (run (characters a) (fst seg) (snd seg));
  wa_start :
    nth_error (character_start_times_seconds a) (fst seg)
    = Some (entry_start e);
  wa_duration :
    exists t, closes a (fst seg) (snd seg) t /\
              entry_duration e = (t - entry_start e)%float;
  wa_valid : valid_entry e
}.

(** Segment [s1] lies wholly before segment [s2], with at least one
    character (the separator) in between. *)
Definition seg_before (s1 s2 : nat * nat) : Prop :=
  fst s1 + snd s1 < fst s2.

(** Segments in input order, all closed before position [bound]. *)
Definition segs_upto (bound : nat) (segs : list (nat * nat)) : Prop :=
  StronglySorted seg_before segs /\
  Forall (fun s => fst s + snd s < bound) segs.

(** What the loop knows after [i] characters. *)
Definition scan_inv (a : alignment) (i : nat) (st : locals) : Prop :=
  i <= length (characters a) /\
  Forall nonspace (words st) /\
  exists segs,
    Forall2 (word_at a) segs (subtitles st) /\
    match start_time st with
    | Some s =>
        exists j, j < i /\
          words st = run (characters a) j (i - j) /\
          left_boundary (characters a) j /\
          nth_error (character_start_times_seconds a) j = Some s /\
          segs_upto j segs
    | None =>
        segs_upto i segs /\
        ((words st = [] /\ left_boundary (characters a) i) \/
         (words st <> [] /\ length (character_start_times_seconds a) < i))
    end.

(** The entry, if any, for a last word [w] that starts at index [j]: it
    needs the start time of its first character and the end time of its
    last one, and must pass the validity rule. *)
Definition final_word (a : alignment) (j : nat) (w : list str)
    : list SubtitleEntry :=
  match nth_error (character_start_times_seconds a) j,
        nth_error (character_end_times_seconds a) (j + length w - 1) with
  | Some s, Some t => emit [] w s t
  | _, _ => []
  end.

(** ** Orders on times *)

(** A sequence of times in non-decreasing order. *)
Definition nondecreasing (ts : list float) : Prop :=
  StronglySorted (fun x y => (x <=? y)%float = true) ts.

(** ** Inputs used as examples *)

(** Start times that go back in time: "a" is said at 5 s, "b" at 1 s. *)
Definition out_of_order : alignment :=
  Alignment (chars_of "a b ") [5; 6; 1; 2]%float [6; 7; 2; 3]%float.

Definition hi_there_alignment : alignment :=
  Alignment (chars_of "hi there")
    [0.0; 0.1; 0.2; 0.3; 0.4; 0.5; 0.6; 0.7]%float
    [0.1; 0.2; 0.3; 0.4; 0.5; 0.6; 0.7; 0.8]%float.

Definition hi_there_entries : list SubtitleEntry :=
  [ (of_string "hi", 0.0, 0.2 - 0.0);
    (of_string "there", 0.3, 0.8 - 0.3) ]%float.

(** The start times are one short: the [" "] at index 1 has none. *)
Definition short_start_times : alignment :=
  Alignment (chars_of "a ") [0.0]%float [0.5; 0.6]%float.

(** The one-character strings for a tab and a line feed. *)
Definition tab : str := [9%N].
Definition newline : str := [10%N].

(** A run with an empty [templates/] directory. *)
Definition no_templates : world :=
  World (fun _ _ => Ok ([], hi_there_alignment)) [] 0.

(** A run whose text is a single space: no entry comes out of it. *)
Definition nothing_to_say : world :=
  World (fun _ _ => Ok ([], Alignment (chars_of " ") [0.0]%float [0.1]%float))
        ["background.mp4"%string] 0.

(** ** The failing lookup *)

(** The [" "] at index [k] has no start time, and the characters from the
    last index that has one up to [k] are all part of one word. *)
Definition unguarded_lookup (a : alignment) (k : nat) : Prop :=
  0 < length (character_start_times_seconds a) <= k /\
  nth_error (characters a) k = Some space /\
  forall i,
    length (character_start_times_seconds a) - 1 <= i < k ->
    exists c, nth_error (characters a) i = Some c /\ c <> space.

(** ** [crop_video_to_tiktok] and [add_peter_image]: the geometry *)

(** A Python number: an [int] or a [float]. *)
Inductive number : Type :=
| PyInt (n : Z)
| PyFloat (x : float).

(** Arithmetic that may leave the range of the floats. *)
Inductive arith (A : Type) : Type :=
| Fine (x : A)
| OverflowError.
Arguments OverflowError {A}.

Definition arith_bind {A B} (r : arith A) (k : A -> arith B) : arith B :=
  match r with
  | Fine x => k x
  | OverflowError => OverflowError
  end.

(** The float nearest to [n * 2^e], ties to even; an [int] too large for
    a float raises. *)
Definition nearest_float (n e : Z) : arith float :=
  let x := SF2Prim (binary_normalize prec emax n e false) in
  if is_infinity x then OverflowError else Fine x.

(** [float(n)], as in [n * x] for an [int] [n] and a [float] [x]. *)
Definition float_of_int (n : Z) : arith float := nearest_float n 0.

(** [n / 2] for an [int] [n]: the true quotient, correctly rounded. *)
Definition int_half (n : Z) : arith float := nearest_float n (-1).

(** [max(0, v)]: [v] when [v > 0], else the [int] [0]. *)
Definition max_0 (v : float) : number :=
  if (0 <? v)%float then PyFloat v else PyInt 0.

(** The arguments handed to [Crop] (line 150). *)
Record crop_box : Type := CropBox {
  x1 : number;
  y1 : number;
  width : float;
  height : Z
}.

(** Lines 128-153, for a video of [video_w] by [video_h] pixels. *)
Definition crop_video_to_tiktok (video_w video_h : Z) : arith crop_box :=
  let aspect_ratio := (1080 / 1920)%float in
  let current_w := video_w in
  let current_h := video_h in
  let target_height := video_h in
  arith_bind (float_of_int target_height) (fun h_float =>
  let target_width := (h_float * aspect_ratio)%float in
  arith_bind (int_half current_w) (fun x_center =>
  let x1 := max_0 (x_center - target_width / 2)%float in
  arith_bind (int_half current_h) (fun y_center =>
  arith_bind (int_half target_height) (fun half_height =>
  let y1 := max_0 (y_center - half_height)%float in
  Fine (CropBox x1 y1 target_width target_height))))).

(** Height and position given to the overlay image (lines 163-169). *)
Record overlay : Type := Overlay {
  overlay_height : Z;
  overlay_x : Z;
  overlay_y : Z
}.

Definition add_peter_image (video_h : Z) : overlay :=
  let target_height := (video_h / 2)%Z in
  let padding_x := (-40)%Z in
  let padding_y := (-100)%Z in
  Overlay target_height padding_x (video_h - target_height - padding_y)%Z.

(** The end of an entry, as line 216 computes it. *)
Definition entry_end (e : SubtitleEntry) : float :=
  (entry_start e + entry_duration e)%float.

(** * Properties of the embedding *)

(** ** Sanity checks on concrete inputs *)

Example hi_there :
  create_subtitle_list hi_there_alignment = Ok hi_there_entries.
Proof. vm_compute. reflexivity. Qed.

Example single_space :
  create_subtitle_list (Alignment (chars_of " ") [0.0]%float [0.1]%float)
  = Ok [].
Proof. reflexivity. Qed.

(** ** Basic facts about the Python primitives *)

Lemma str_eqb_eq (s t : str) : str_eqb s t = true <-> s = t.
Proof.
  revert t; induction s as [|c s IH]; intros [|d t]; simpl;
    try (split; congruence).
  rewrite andb_true_iff, N.eqb_eq, IH. split.
  - intros [-> ->]; reflexivity.
  - intros E; injection E; auto.
Qed.

Lemma is_separator_iff (char : str) :
  is_separator char = true <-> char = space.
Proof.
  unfold is_separator. split.
  - intros H. apply andb_true_iff in H. apply str_eqb_eq, H.
  - intros ->. reflexivity.
Qed.

Lemma is_separator_false (char : str) :
  is_separator char = false <-> char <> space.
Proof.
  rewrite <- is_separator_iff. destruct (is_separator char); split;
    congruence.
Qed.

Lemma truthy_true {A} (l : list A) : truthy l = true <-> l <> [].
Proof. destruct l; simpl; split; congruence. Qed.

Lemma getitem_Ok {A} (xs : list A) (i : nat) (x : A) :
  getitem xs i = Ok x <-> nth_error xs i = Some x.
Proof.
  unfold getitem. destruct (nth_error xs i); split; congruence.
Qed.

Lemma getitem_in_range {A} (xs : list A) (i : nat) :
  i < length xs -> exists x, getitem xs i = Ok x /\ nth_error xs i = Some x.
Proof.
  intros H. unfold getitem.
  destruct (nth_error xs i) as [x|] eqn:E; [eauto|].
  apply nth_error_None in E. lia.
Qed.

(** The two comparisons of a duration with zero exclude each other. *)
Lemma float_le0_not_pos (d : float) :
  (d <=? 0)%float = true -> (0 <? d)%float = false.
Proof.
  rewrite leb_spec, ltb_spec.
  change (Prim2SF 0) with (S754_zero false).
  destruct (Prim2SF d) as [[|]|[|]| |[|] m e]; cbv; congruence.
Qed.

(** A float minus itself is never positive (it is zero, or NaN). *)
Lemma float_sub_diag_not_pos (t : float) : (0 <? t - t)%float = false.
Proof.
  rewrite ltb_spec, sub_spec.
  change (Prim2SF 0) with (S754_zero false).
  destruct (Prim2SF t) as [[|]|[|]| |[|] m e]; try reflexivity;
    unfold SF64sub, SFsub;
    match goal with
    | |- context [ (?x - ?x)%Z ] =>
        replace (x - x)%Z with 0%Z by (symmetry; apply Z.sub_diag)
    end; reflexivity.
Qed.

(** ** List lemmas *)

Lemma firstn_snoc {A} (l : list A) (n : nat) (x : A) :
  nth_error l n = Some x -> firstn (S n) l = firstn n l ++ [x].
Proof.
  revert l; induction n as [|n IH]; intros [|y l] H; simpl in *;
    try discriminate.
  - congruence.
  - rewrite <- IH by assumption. reflexivity.
Qed.

Lemma run_snoc (chars : list str) (j i : nat) (c : str) :
  j <= i -> nth_error chars i = Some c ->
  run chars j (S i - j) = run chars j (i - j) ++ [c].
Proof.
  intros Hj Hc. unfold run.
  replace (S i - j) with (S (i - j)) by lia.
  apply firstn_snoc. rewrite nth_error_skipn.
  replace (j + (i - j)) with i by lia. assumption.
Qed.

Lemma run_length (chars : list str) (j n : nat) :
  j + n <= length chars -> length (run chars j n) = n.
Proof.
  intros H. unfold run. rewrite length_firstn, length_skipn. lia.
Qed.

Lemma run_nil_inv (chars : list str) (j n : nat) :
  j + n <= length chars -> run chars j n = [] -> n = 0.
Proof.
  intros H E. apply run_length in H. rewrite E in H. simpl in H. lia.
Qed.

Lemma run_one (chars : list str) (i : nat) (c : str) :
  nth_error chars i = Some c -> run chars i 1 = [c].
Proof.
  intros H. unfold run.
  rewrite (firstn_snoc (skipn i chars) 0 (x := c)).
  - reflexivity.
  - rewrite nth_error_skipn, Nat.add_0_r. assumption.
Qed.

Lemma segs_upto_weaken (b b' : nat) (segs : list (nat * nat)) :
  b <= b' -> segs_upto b segs -> segs_upto b' segs.
Proof.
  intros Hb [Hs Hf]. split; [assumption|].
  eapply Forall_impl; [|exact Hf]. simpl. intros; lia.
Qed.

Lemma StronglySorted_snoc {A} (R : A -> A -> Prop) (l : list A) (x : A) :
  StronglySorted R l -> Forall (fun y => R y x) l ->
  StronglySorted R (l ++ [x]).
Proof.
  induction 1 as [|y l Hl IH Hy]; intros Hx; simpl.
  - repeat constructor.
  - inversion Hx; subst. constructor; [auto|].
    apply Forall_app; split; [assumption|]. constructor; auto.
Qed.

Lemma segs_upto_snoc (segs : list (nat * nat)) (j n b : nat) :
  segs_upto j segs -> j + n < b -> segs_upto b (segs ++ [(j, n)]).
Proof.
  intros [Hs Hf] Hb. split.
  - apply StronglySorted_snoc; [assumption|]. exact Hf.
  - apply Forall_app; split.
    + eapply Forall_impl; [|exact Hf]. simpl; intros; lia.
    + constructor; [exact Hb|constructor].
Qed.

Lemma segs_upto_nil (b : nat) : segs_upto b [].
Proof. split; constructor. Qed.

Lemma StronglySorted_nth {A} (R : A -> A -> Prop) (l : list A) :
  StronglySorted R l ->
  forall i j x y, i < j ->
    nth_error l i = Some x -> nth_error l j = Some y -> R x y.
Proof.
  induction 1 as [|z l Hl IH Hz]; intros i j x y Hij Hx Hy.
  - destruct i; discriminate.
  - destruct j as [|j]; [lia|]. simpl in Hy. destruct i as [|i].
    + simpl in Hx. injection Hx as <-.
      rewrite Forall_forall in Hz. apply Hz.
      eapply nth_error_In; eassumption.
    + simpl in Hx. apply (IH i j); auto; lia.
Qed.

(** ** The loop *)

Lemma scan_app (a : alignment) (l1 l2 : list str) (i : nat) (st : locals) :
  scan a i (l1 ++ l2) st
  = (st1 <- scan a i l1 st ;; scan a (i + length l1) l2 st1).
Proof.
  revert i st; induction l1 as [|c l1 IH]; intros i st; simpl.
  - rewrite Nat.add_0_r. reflexivity.
  - destruct (loop_body a i c st) as [st1|e]; simpl; [|reflexivity].
    rewrite IH. replace (S i + length l1) with (i + S (length l1)) by lia.
    reflexivity.
Qed.

(** A non-space character never closes a word: it is appended to the
    buffer, and the entries are left as they are. *)
Lemma loop_body_nonspace (a : alignment) (i : nat) (char : str)
    (st : locals) :
  char <> space ->
  exists start',
    loop_body a i char st = Ok (Locals (subtitles st) (words st ++ [char]) start')
    /\ start' =
       match start_time st with
       | Some s => Some s
       | None => nth_error (character_start_times_seconds a) i
       end.
Proof.
  intros Hc. apply is_separator_false in Hc.
  unfold loop_body. rewrite Hc.
  destruct (start_time st) as [s|]; simpl; [eauto|].
  destruct (i <? length (character_start_times_seconds a)) eqn:Hi.
  - apply Nat.ltb_lt in Hi.
    destruct (getitem_in_range _ Hi) as (s & -> & ->). simpl. eauto.
  - apply Nat.ltb_ge in Hi. simpl. eexists; split; [reflexivity|].
    symmetry. apply nth_error_None. assumption.
Qed.

Lemma emit_cases (subs : list SubtitleEntry) (ws : list str)
    (s t : float) :
  (emit subs ws s t = subs ++ [(join ws, s, (t - s)%float)] /\
   valid_entry (join ws, s, (t - s)%float))
  \/
  (emit subs ws s t = subs /\
   ((0 <? t - s)%float = false \/ strip (join ws) = [])).
Proof.
  unfold emit, valid_entry, entry_duration, entry_text. simpl.
  destruct (0 <? t - s)%float; simpl; [|right; auto].
  destruct (strip (join ws)) eqn:E; simpl; [right; auto|].
  left. split; [reflexivity|]. split; [reflexivity|]. congruence.
Qed.

Lemma loop_body_inv (a : alignment) (i : nat) (char : str)
    (st st' : locals) :
  nth_error (characters a) i = Some char ->
  scan_inv a i st ->
  loop_body a i char st = Ok st' ->
  scan_inv a (S i) st'.
Proof.
  intros Hchar (Hi & Hws & segs & Hsegs & Hst) Hstep.
  assert (Hlt : i < length (characters a))
    by (apply nth_error_Some; congruence).
  destruct (is_separator char) eqn:Hsep.
  - (* the separator *)
    apply is_separator_iff in Hsep. subst char.
    unfold loop_body in Hstep. simpl in Hstep.
    destruct (start_time st) as [s|] eqn:Hs.
    + destruct Hst as (j & Hj & Hrun & Hleft & Hstart & Hupto).
      assert (Hne : truthy (words st) = true).
      { apply truthy_true. intros E. rewrite E in Hrun. symmetry in Hrun.
        apply run_nil_inv in Hrun; lia. }
      rewrite Hne in Hstep.
      destruct (getitem (character_start_times_seconds a) i) as [t|] eqn:Ht;
        simpl in Hstep; [|discriminate].
      apply getitem_Ok in Ht. injection Hstep as <-.
      split; [lia|]. split; [constructor|]. simpl.
      assert (Hb : left_boundary (characters a) (S i))
        by (right; eauto).
      destruct (emit_cases (subtitles st) (words st) s t)
        as [[-> Hv]|[-> _]].
      * exists (segs ++ [(j, i - j)]). split.
        -- apply Forall2_app; [assumption|]. constructor; [|constructor].
           constructor; simpl; rewrite <- ?Hrun;
             replace (j + (i - j)) with i by lia; auto.
           ++ lia.
           ++ right; assumption.
           ++ exists t. split; [|reflexivity]. left.
              replace (j + (i - j)) with i by lia. auto.
        -- split; [|left; auto].
           apply segs_upto_snoc; [assumption|lia].
      * exists segs. split; [assumption|]. split; [|left; auto].
        eapply segs_upto_weaken; [|eassumption]. lia.
    + assert (st' = st) as ->
        by (destruct (truthy (words st)); congruence).
      split; [lia|]. split; [assumption|]. exists segs.
      split; [assumption|]. rewrite Hs.
      destruct Hst as (Hupto & Hcase). split.
      * eapply segs_upto_weaken; [|eassumption]. lia.
      * destruct Hcase as [[Hnil _]|[Hne HL]].
        -- left. split; [assumption|]. right; eauto.
        -- right. split; [assumption|lia].
  - (* an ordinary character *)
    apply is_separator_false in Hsep.
    destruct (loop_body_nonspace a i st Hsep) as (start' & Hbody & Hstart').
    rewrite Hbody in Hstep. injection Hstep as <-.
    split; [lia|]. split.
    { apply Forall_app; split; [assumption|]. constructor; [exact Hsep|constructor]. }
    exists segs. split; [assumption|]. cbn [start_time words].
    destruct (start_time st) as [s|] eqn:Hs; subst start'.
    + destruct Hst as (j & Hj & Hrun & Hleft & Hstart & Hupto).
      exists j. split; [lia|].
      split; [|split; [assumption|split; assumption]].
      rewrite Hrun. symmetry. apply run_snoc; [lia|assumption].
    + destruct Hst as (Hupto & Hcase).
      destruct (nth_error (character_start_times_seconds a) i) as [s|] eqn:Hn.
      * assert (HL : i < length (character_start_times_seconds a))
          by (apply nth_error_Some; congruence).
        destruct Hcase as [[Hnil Hleft]|[_ HL']]; [|lia].
        exists i. rewrite Hnil. cbn [app].
        replace (S i - i) with 1 by lia.
        rewrite (run_one _ _ Hchar).
        split; [lia|]. split; [reflexivity|].
        split; [assumption|split; assumption].
      * apply nth_error_None in Hn.
        split; [eapply segs_upto_weaken; [|eassumption]; lia|].
        right. split; [|lia]. destruct (words st); discriminate.
Qed.

Lemma scan_inv_initial (a : alignment) : scan_inv a 0 initial.
Proof.
  split; [lia|]. split; [constructor|].
  exists []. split; [constructor|]. simpl. split.
  - apply segs_upto_nil.
  - left. split; [reflexivity|]. left; reflexivity.
Qed.

(** Scanning a stretch [mid] of the input from a state that satisfies the
    invariant leads to one that does. *)
Lemma scan_preserves (a : alignment) (mid pre post : list str)
    (st st' : locals) :
  characters a = pre ++ mid ++ post ->
  scan_inv a (length pre) st ->
  scan a (length pre) mid st = Ok st' ->
  scan_inv a (length pre + length mid) st'.
Proof.
  revert pre st; induction mid as [|c mid IH]; intros pre st Hchars Hinv Hscan.
  - simpl in *. injection Hscan as <-. rewrite Nat.add_0_r. assumption.
  - simpl in Hscan.
    destruct (loop_body a (length pre) c st) as [st1|e] eqn:Hbody;
      simpl in Hscan; [|discriminate].
    assert (Hc : nth_error (characters a) (length pre) = Some c).
    { rewrite Hchars, nth_error_app2, Nat.sub_diag by lia. reflexivity. }
    pose proof (loop_body_inv Hc Hinv Hbody) as Hinv1.
    specialize (IH (pre ++ [c]) st1).
    rewrite length_app in IH. simpl in IH.
    replace (length pre + 1) with (S (length pre)) in IH by lia.
    simpl. replace (length pre + S (length mid))
      with (S (length pre) + length mid) by lia.
    apply IH; auto.
    rewrite Hchars, <- app_assoc. reflexivity.
Qed.

Lemma scan_prefix_inv (a : alignment) (pre post : list str) (st : locals) :
  characters a = pre ++ post ->
  scan a 0 pre initial = Ok st ->
  scan_inv a (length pre) st.
Proof.
  intros Hchars Hscan.
  apply (@scan_preserves a pre [] post initial st); auto.
  apply scan_inv_initial.
Qed.

(** ** After the loop *)

Lemma last_index_length (chars : list str) :
  chars <> [] -> last_index chars = Some (length chars - 1).
Proof.
  destruct chars as [|c rest]; [congruence|]. intros _. simpl.
  rewrite Nat.sub_0_r. reflexivity.
Qed.

(** The trailing flush never raises, and what it returns is made of words
    of the input, in input order. *)
Lemma finish_inv (a : alignment) (st : locals) :
  scan_inv a (length (characters a)) st ->
  exists subs segs,
    finish a st = Ok subs /\
    Forall2 (word_at a) segs subs /\
    StronglySorted seg_before segs.
Proof.
  intros (_ & Hws & segs & Hsegs & Hst). unfold finish.
  destruct (start_time st) as [s|] eqn:Hs.
  - destruct Hst as (j & Hj & Hrun & Hleft & Hstart & Hupto).
    assert (Hne : truthy (words st) = true).
    { apply truthy_true. intros E. rewrite E in Hrun. symmetry in Hrun.
      apply run_nil_inv in Hrun; lia. }
    rewrite Hne, last_index_length
      by (intros E; rewrite E in Hj; simpl in Hj; lia).
    set (L := length (characters a)) in *.
    destruct (L - 1 <? length (character_end_times_seconds a)) eqn:Hend.
    + apply Nat.ltb_lt in Hend.
      destruct (getitem_in_range _ Hend) as (t & -> & Ht). simpl.
      destruct (emit_cases (subtitles st) (words st) s t)
        as [[-> Hv]|[-> _]].
      * exists (subtitles st ++ [(join (words st), s, (t - s)%float)]),
          (segs ++ [(j, L - j)]).
        split; [reflexivity|]. split.
        -- apply Forall2_app; [assumption|]. constructor; [|constructor].
           constructor; simpl; rewrite <- ?Hrun;
             replace (j + (L - j)) with L by lia; auto.
           ++ lia.
           ++ left; reflexivity.
           ++ exists t. split; [|reflexivity]. right.
              replace (j + (L - j)) with L by lia. auto.
        -- apply StronglySorted_snoc; [apply Hupto|]. apply Hupto.
      * exists (subtitles st), segs. repeat split; auto. apply Hupto.
    + exists (subtitles st), segs. repeat split; auto. apply Hupto.
  - exists (subtitles st), segs.
    split; [destruct (truthy (words st)); reflexivity|].
    split; [assumption|]. apply Hst.
Qed.

(** Every entry of the result is a word of the input, and the entries
    follow the order of the input. *)
Lemma create_subtitle_list_words (a : alignment)
    (subs : list SubtitleEntry) :
  create_subtitle_list a = Ok subs ->
  exists segs,
    Forall2 (word_at a) segs subs /\ StronglySorted seg_before segs.
Proof.
  unfold create_subtitle_list. intros H.
  destruct (scan a 0 (characters a) initial) as [st|e] eqn:Hscan;
    simpl in H; [|discriminate].
  assert (Hinv : scan_inv a (length (characters a)) st).
  { apply (@scan_prefix_inv a (characters a) [] st); auto.
    rewrite app_nil_r. reflexivity. }
  destruct (finish_inv Hinv) as (subs' & segs & Hfin & H2 & Hsorted).
  rewrite Hfin in H. injection H as <-. eauto.
Qed.

(** *** When the loop raises *)

Lemma loop_body_total (a : alignment) (i : nat) (char : str)
    (st : locals) :
  (char = space -> i < length (character_start_times_seconds a)) ->
  exists st', loop_body a i char st = Ok st'.
Proof.
  intros H. destruct (is_separator char) eqn:Hsep.
  - apply is_separator_iff in Hsep. specialize (H Hsep).
    unfold loop_body. apply is_separator_iff in Hsep. rewrite Hsep.
    destruct (truthy (words st)), (start_time st); eauto.
    destruct (getitem_in_range _ H) as (t & -> & _). simpl. eauto.
  - apply is_separator_false in Hsep.
    destruct (loop_body_nonspace a i st Hsep) as (s' & -> & _). eauto.
Qed.

Lemma loop_body_raises (a : alignment) (i : nat) (char : str)
    (st : locals) (e : exn) :
  loop_body a i char st = Raise e ->
  e = IndexError /\ char = space /\
  length (character_start_times_seconds a) <= i.
Proof.
  intros H.
  destruct (le_lt_dec (length (character_start_times_seconds a)) i)
    as [Hle|Hlt].
  - destruct (is_separator char) eqn:Hsep.
    + apply is_separator_iff in Hsep. split; [|auto].
      unfold loop_body in H. apply is_separator_iff in Hsep.
      rewrite Hsep in H.
      destruct (truthy (words st)), (start_time st); try discriminate.
      unfold getitem in H.
      destruct (nth_error (character_start_times_seconds a) i);
        simpl in H; congruence.
    + apply is_separator_false in Hsep.
      destruct (loop_body_nonspace a i st Hsep) as (s' & E & _).
      congruence.
  - destruct (@loop_body_total a i char st (fun _ => Hlt)) as (st' & E).
    congruence.
Qed.

Lemma scan_total (a : alignment) (chars : list str) (i : nat)
    (st : locals) :
  (forall k, nth_error chars k = Some space ->
             i + k < length (character_start_times_seconds a)) ->
  exists st', scan a i chars st = Ok st'.
Proof.
  revert i st; induction chars as [|c chars IH]; intros i st H; simpl.
  - eauto.
  - destruct (@loop_body_total a i c st) as (st1 & ->).
    + intros ->. specialize (H 0 eq_refl). lia.
    + simpl. apply IH. intros k Hk. specialize (H (S k) Hk). lia.
Qed.

Lemma scan_raises (a : alignment) (chars : list str) (i : nat)
    (st : locals) (e : exn) :
  scan a i chars st = Raise e ->
  e = IndexError /\
  exists k, nth_error chars k = Some space /\
            length (character_start_times_seconds a) <= i + k.
Proof.
  revert i st; induction chars as [|c chars IH]; intros i st H;
    simpl in H; [discriminate|].
  destruct (loop_body a i c st) as [st1|e1] eqn:Hbody; simpl in H.
  - destruct (IH _ _ H) as (-> & k & Hk & HL). split; [reflexivity|].
    exists (S k). split; [assumption|lia].
  - injection H as ->. destruct (loop_body_raises _ _ _ _ Hbody)
      as (-> & -> & HL).
    split; [reflexivity|]. exists 0. split; [reflexivity|lia].
Qed.

(** The function returns whenever every [" "] of the input has a start
    time. *)
Lemma create_subtitle_list_total (a : alignment) :
  (forall k, nth_error (characters a) k = Some space ->
             k < length (character_start_times_seconds a)) ->
  exists subs, create_subtitle_list a = Ok subs.
Proof.
  intros H. unfold create_subtitle_list.
  destruct (@scan_total a (characters a) 0 initial H) as (st & Hscan).
  rewrite Hscan. simpl.
  assert (Hinv : scan_inv a (length (characters a)) st).
  { apply (@scan_prefix_inv a (characters a) [] st); auto.
    rewrite app_nil_r. reflexivity. }
  destruct (finish_inv Hinv) as (subs & _ & -> & _). eauto.
Qed.

(** Whatever the function raises is the [IndexError] of the lookup of
    line 95, at a [" "] that has no start time. *)
Lemma create_subtitle_list_raises (a : alignment) (e : exn) :
  create_subtitle_list a = Raise e ->
  e = IndexError /\
  exists k, nth_error (characters a) k = Some space /\
            length (character_start_times_seconds a) <= k.
Proof.
  unfold create_subtitle_list. intros H.
  destruct (scan a 0 (characters a) initial) as [st|e'] eqn:Hscan;
    simpl in H.
  - assert (Hinv : scan_inv a (length (characters a)) st).
    { apply (@scan_prefix_inv a (characters a) [] st); auto.
      rewrite app_nil_r. reflexivity. }
    destruct (finish_inv Hinv) as (subs & _ & Hfin & _). congruence.
  - injection H as ->. apply scan_raises in Hscan. exact Hscan.
Qed.

(** A text made of one-character strings other than [" "] holds no
    U+0020. *)
Lemma join_no_space (ws : list str) :
  Forall nonspace ws ->
  Forall (fun c => length c = 1) ws ->
  ~ In 32%N (join ws).
Proof.
  unfold join. intros Hns Hone Hin.
  apply in_concat in Hin. destruct Hin as (c & Hc & Hin).
  rewrite Forall_forall in Hns, Hone.
  specialize (Hns c Hc). specialize (Hone c Hc).
  destruct c as [|x [|y c]]; simpl in Hone; try discriminate.
  destruct Hin as [->|[]]. apply Hns. reflexivity.
Qed.

Lemma Forall_run {P : str -> Prop} (chars : list str) (j n : nat) :
  Forall P chars -> Forall P (run chars j n).
Proof.
  intros H. unfold run.
  rewrite <- (firstn_skipn j chars) in H. apply Forall_app in H.
  destruct H as [_ H].
  rewrite <- (firstn_skipn n (skipn j chars)) in H.
  apply Forall_app in H. apply H.
Qed.

(** ** Order of the entries *)

Lemma entry_starts_sorted (a : alignment) (segs : list (nat * nat))
    (subs : list SubtitleEntry) :
  nondecreasing (character_start_times_seconds a) ->
  Forall2 (word_at a) segs subs ->
  StronglySorted seg_before segs ->
  nondecreasing (map entry_start subs).
Proof.
  intros Hin H2. induction H2 as [|seg e segs subs He H2 IH]; intros Hs.
  - constructor.
  - inversion Hs as [|? ? Hs' Hall]; subst. simpl.
    constructor; [exact (IH Hs')|].
    clear IH Hs Hs'. induction H2 as [|seg' e' segs subs He' _ IH'].
    + constructor.
    + inversion Hall as [|? ? Hlt Hall']; subst. constructor; [|auto].
      unfold seg_before in Hlt.
      apply (StronglySorted_nth Hin (i := fst seg) (j := fst seg')).
      * pose proof (wa_len He). lia.
      * exact (wa_start He).
      * exact (wa_start He').
Qed.

(** ** The last word *)

Lemma emit_app (subs : list SubtitleEntry) (ws : list str) (s t : float) :
  emit subs ws s t = subs ++ emit [] ws s t.
Proof.
  unfold emit.
  destruct ((0 <? t - s)%float && truthy (strip (join ws))); simpl.
  - reflexivity.
  - rewrite app_nil_r. reflexivity.
Qed.

(** A stretch without [" "] is taken into the buffer as a whole; it sets
    the start time only through its first character. *)
Lemma scan_nonspace (a : alignment) (w : list str) (i : nat)
    (st : locals) :
  Forall nonspace w ->
  scan a i w st
  = Ok (Locals (subtitles st) (words st ++ w)
          match start_time st, w with
          | Some s, _ => Some s
          | None, [] => None
          | None, _ :: _ => nth_error (character_start_times_seconds a) i
          end).
Proof.
  revert i st; induction w as [|c w IH]; intros i st Hw; simpl.
  - rewrite app_nil_r. destruct st as [subs ws [s|]]; reflexivity.
  - inversion Hw as [|? ? Hc Hw']; subst.
    destruct (loop_body_nonspace a i st Hc) as (start' & -> & Hstart').
    simpl. rewrite (IH _ _ Hw'). simpl. rewrite <- app_assoc. simpl.
    f_equal. f_equal. subst start'.
    destruct (start_time st) as [s|]; [reflexivity|].
    destruct (nth_error (character_start_times_seconds a) i) eqn:E;
      [reflexivity|].
    destruct w; [reflexivity|].
    change (nth_error (character_start_times_seconds a) (S i) = None).
    apply nth_error_None. apply nth_error_None in E. lia.
Qed.

(** Right after a [" "], or before anything is read, no word has a start
    time. *)
Lemma no_start_at_boundary (a : alignment) (pre post : list str)
    (st : locals) :
  characters a = pre ++ post ->
  pre = [] \/ (exists p, pre = p ++ [space]) ->
  scan_inv a (length pre) st ->
  start_time st = None.
Proof.
  intros Hchars Hpre (_ & Hws & segs & _ & Hst).
  destruct (start_time st) as [s|]; [exfalso|reflexivity].
  destruct Hst as (j & Hj & Hrun & _).
  destruct Hpre as [->|(p & ->)]; [simpl in Hj; lia|].
  rewrite length_app in Hj, Hrun. simpl in Hj, Hrun.
  replace (length p + 1) with (S (length p)) in Hrun by lia.
  rewrite (@run_snoc _ j (length p) space) in Hrun; [|lia|].
  - rewrite Hrun in Hws. apply Forall_app in Hws. destruct Hws as [_ Hws].
    apply Forall_inv in Hws. apply Hws. reflexivity.
  - rewrite Hchars, <- app_assoc, nth_error_app2, Nat.sub_diag by lia.
    reflexivity.
Qed.

(** ** Choosing a template *)

Lemma random_choice_nonempty {A} (pick : nat) (xs : list A) :
  xs <> [] -> exists x, random_choice pick xs = Ok x.
Proof.
  intros Hx. unfold random_choice.
  destruct xs as [|y xs]; [congruence|].
  destruct (@getitem_in_range A (y :: xs) (pick mod length (y :: xs)))
    as (x & Hget & _).
  - apply Nat.mod_upper_bound. simpl. lia.
  - eauto.
Qed.

(** * The properties the specification states *)

(** ** C1 *)

(** C1 does not hold of the code.  The claim is that no input shape makes
    [create_subtitle_list] raise, every lookup being guarded.  The lookup
    of line 95, [character_start_times_seconds[i]] at a separator, has no
    guard: on the characters ["a"; " "] with one start time the function
    raises [IndexError]. *)
Theorem separator_lookup_out_of_range :
  create_subtitle_list short_start_times = Raise IndexError.
Proof. reflexivity. Qed.

(** ** C2 *)

(** C2: every entry of the result has [duration > 0] and a text that is
    non-empty once stripped. *)
Theorem entries_are_valid (a : alignment) (subs : list SubtitleEntry) :
  create_subtitle_list a = Ok subs ->
  Forall (fun e => (0 <? entry_duration e)%float = true /\
                   strip (entry_text e) <> []) subs.
Proof.
  intros H. apply create_subtitle_list_words in H.
  destruct H as (segs & H2 & _).
  induction H2 as [|seg e segs subs He _ IH]; constructor; [|exact IH].
  exact (wa_valid He).
Qed.

Lemma entries_are_valid_witness :
  Forall (fun e => (0 <? entry_duration e)%float = true /\
                   strip (entry_text e) <> []) hi_there_entries.
Proof.
  apply (@entries_are_valid hi_there_alignment). vm_compute. reflexivity.
Defined.

(** ** C3 *)

(** C3: the separator test holds of [" "] and of nothing else (not of a
    tab, not of a newline); any other character is appended to the word
    in progress and closes nothing; and each entry of a result is a
    maximal run of such characters: it starts at the start of the input
    or after a [" "], and stops at the end of the input or at a [" "]. *)
Theorem words_are_split_at_spaces_only :
  (forall char, is_separator char = true <-> char = space) /\
  is_separator tab = false /\
  is_separator newline = false /\
  (forall a i char st,
      char <> space ->
      exists start',
        loop_body a i char st
        = Ok (Locals (subtitles st) (words st ++ [char]) start')) /\
  (forall a subs,
      create_subtitle_list a = Ok subs ->
      Forall (fun e => exists j n,
                  0 < n /\
                  entry_text e = join (run (characters a) j n) /\
                  Forall (fun c => c <> space) (run (characters a) j n) /\
                  left_boundary (characters a) j /\
                  right_boundary (characters a) (j + n)) subs).
Proof.
  split; [exact is_separator_iff|].
  split; [reflexivity|]. split; [reflexivity|]. split.
  - intros a i char st Hc.
    destruct (loop_body_nonspace a i st Hc) as (start' & H & _). eauto.
  - intros a subs H. apply create_subtitle_list_words in H.
    destruct H as (segs & H2 & _).
    induction H2 as [|[j n] e segs subs He _ IH]; constructor; [|exact IH].
    exists j, n. destruct He; simpl in *. intuition.
Qed.

Lemma words_are_split_at_spaces_only_witness :
  (exists start',
      loop_body hi_there_alignment 0 tab initial
      = Ok (Locals [] [tab] start')) /\
  Forall (fun e => exists j n,
              0 < n /\
              entry_text e = join (run (characters hi_there_alignment) j n) /\
              Forall (fun c => c <> space)
                     (run (characters hi_there_alignment) j n) /\
              left_boundary (characters hi_there_alignment) j /\
              right_boundary (characters hi_there_alignment) (j + n))
         hi_there_entries.
Proof.
  split.
  - apply (proj1 (proj2 (proj2 (proj2 words_are_split_at_spaces_only)))
             hi_there_alignment 0 tab initial).
    discriminate.
  - apply (proj2 (proj2 (proj2 (proj2 words_are_split_at_spaces_only)))
             hi_there_alignment).
    vm_compute. reflexivity.
Defined.

(** ** C4 *)

(** C4: when the input ends with a run [w] of characters other than
    [" "] (it is all of the input, or follows a [" "]), the result is the
    entries of the words closed before [w], followed by the entry of [w]
    itself, once, if it has one: [final_word] takes the end time of the
    last character and applies the validity rule.  The entries closed
    before [w] are words that stop before it.  With no [" "] at all, the
    result is that one entry or nothing. *)
Theorem trailing_word_is_flushed_once (a : alignment)
    (pre w : list str) :
  characters a = pre ++ w ->
  w <> [] ->
  Forall (fun c => c <> space) w ->
  pre = [] \/ (exists p, pre = p ++ [space]) ->
  create_subtitle_list a
  = (st <- scan a 0 pre initial ;;
     Ok (subtitles st ++ final_word a (length pre) w))
  /\ (forall st,
         scan a 0 pre initial = Ok st ->
         exists segs,
           Forall2 (word_at a) segs (subtitles st) /\
           Forall (fun s => fst s + snd s < length pre) segs)
  /\ length (final_word a (length pre) w) <= 1
  /\ (forall e,
         In e (final_word a (length pre) w) ->
         entry_text e = join w /\
         nth_error (character_start_times_seconds a) (length pre)
         = Some (entry_start e) /\
         (exists t,
             nth_error (character_end_times_seconds a)
                       (length (characters a) - 1) = Some t /\
             entry_duration e = (t - entry_start e)%float) /\
         (0 <? entry_duration e)%float = true /\
         strip (entry_text e) <> [])
  /\ (pre = [] -> create_subtitle_list a = Ok (final_word a 0 w)).
Proof.
  intros Hchars Hw Hns Hpre.
  assert (Hlen : length (characters a) - 1 = length pre + length w - 1)
    by (rewrite Hchars, length_app; reflexivity).
  assert (Hmain :
    create_subtitle_list a
    = (st <- scan a 0 pre initial ;;
       Ok (subtitles st ++ final_word a (length pre) w))).
  { unfold create_subtitle_list. rewrite Hchars at 1. rewrite scan_app.
    destruct (scan a 0 pre initial) as [st|e] eqn:Hscan; simpl;
      [|reflexivity].
    pose proof (@scan_prefix_inv a pre w st Hchars Hscan) as Hinv.
    pose proof (@no_start_at_boundary a pre w st Hchars Hpre Hinv) as Hnone.
    rewrite (scan_nonspace a _ st Hns). simpl. rewrite Hnone.
    destruct w as [|c w']; [congruence|].
    unfold finish. cbn [words start_time subtitles].
    assert (Ht : truthy (words st ++ c :: w') = true)
      by (apply truthy_true; destruct (words st); discriminate).
    rewrite Ht. unfold final_word.
    destruct Hinv as (_ & _ & segs & _ & Hst). rewrite Hnone in Hst.
    destruct Hst as (_ & Hcase).
    destruct (nth_error (character_start_times_seconds a) (length pre))
      as [s|] eqn:Hs; [|rewrite app_nil_r; reflexivity].
    assert (Hnil : words st = []).
    { destruct Hcase as [[E _]|[_ HL]]; [assumption|].
      assert (length pre < length (character_start_times_seconds a))
        by (apply nth_error_Some; congruence).
      lia. }
    rewrite last_index_length
      by (rewrite Hchars; destruct pre; discriminate).
    rewrite Hlen, Hnil. cbn [app].
    destruct (length pre + length (c :: w') - 1
              <? length (character_end_times_seconds a)) eqn:Hend.
    - apply Nat.ltb_lt in Hend.
      destruct (getitem_in_range _ Hend) as (t & -> & ->). simpl.
      rewrite emit_app. reflexivity.
    - apply Nat.ltb_ge in Hend. apply nth_error_None in Hend.
      rewrite Hend, app_nil_r. reflexivity. }
  split; [exact Hmain|]. split; [|split; [|split]].
  - intros st Hscan.
    pose proof (@scan_prefix_inv a pre w st Hchars Hscan) as Hinv.
    pose proof (@no_start_at_boundary a pre w st Hchars Hpre Hinv) as Hnone.
    destruct Hinv as (_ & _ & segs & H2 & Hst). rewrite Hnone in Hst.
    exists segs. split; [assumption|]. apply Hst.
  - unfold final_word.
    destruct (nth_error (character_start_times_seconds a) (length pre))
      as [s|]; [|simpl; lia].
    destruct (nth_error (character_end_times_seconds a)
                (length pre + length w - 1)) as [t|]; [|simpl; lia].
    destruct (emit_cases [] w s t) as [[-> _]|[-> _]]; simpl; lia.
  - intros e. unfold final_word. rewrite Hlen.
    destruct (nth_error (character_start_times_seconds a) (length pre))
      as [s|]; [|intros []].
    destruct (nth_error (character_end_times_seconds a)
                (length pre + length w - 1)) as [t|]; [|intros []].
    destruct (emit_cases [] w s t) as [[-> Hv]|[-> _]]; [|intros []].
    intros [<-|[]]. destruct Hv as [Hpos Hstrip].
    split; [reflexivity|]. split; [reflexivity|].
    split; [exists t; split; reflexivity|]. split; assumption.
  - intros ->. rewrite Hmain. reflexivity.
Qed.

Lemma trailing_word_is_flushed_once_witness :
  create_subtitle_list hi_there_alignment
  = Ok ([ (of_string "hi", 0.0, 0.2 - 0.0) ]%float
        ++ final_word hi_there_alignment 3 (chars_of "there")).
Proof.
  apply (proj1 (@trailing_word_is_flushed_once hi_there_alignment
                  (chars_of "hi ") (chars_of "there") eq_refl
                  ltac:(discriminate)
                  ltac:(repeat constructor; discriminate)
                  (or_intror (ex_intro _ (chars_of "hi") eq_refl)))).
Defined.

(** ** C5 *)

(** C5 as stated fails: on [out_of_order] both words are emitted, in input
    order, and the start times of the result decrease. *)
Lemma start_times_may_decrease :
  exists subs,
    create_subtitle_list out_of_order = Ok subs /\
    ~ nondecreasing (map entry_start subs).
Proof.
  exists [ (of_string "a", 5, 1); (of_string "b", 1, 1) ]%float.
  split; [vm_compute; reflexivity|].
  intros H. inversion H as [|x l _ Hx]; subst.
  apply Forall_inv in Hx. vm_compute in Hx. discriminate.
Qed.

(** C5, amended: the entries are words of the input, one after the other
    in input order; and when the start times of the input are in
    non-decreasing order, so are the start times of the entries. *)
Theorem entries_in_input_order (a : alignment)
    (subs : list SubtitleEntry) :
  create_subtitle_list a = Ok subs ->
  (exists segs,
      Forall2 (word_at a) segs subs /\ StronglySorted seg_before segs) /\
  (nondecreasing (character_start_times_seconds a) ->
   nondecreasing (map entry_start subs)).
Proof.
  intros H. apply create_subtitle_list_words in H.
  destruct H as (segs & H2 & Hs). split; [eauto|].
  intros Hin. eapply entry_starts_sorted; eassumption.
Qed.

Lemma entries_in_input_order_witness :
  (exists segs,
      Forall2 (word_at hi_there_alignment) segs hi_there_entries /\
      StronglySorted seg_before segs) /\
  nondecreasing (map entry_start hi_there_entries).
Proof.
  assert (H : create_subtitle_list hi_there_alignment = Ok hi_there_entries)
    by (vm_compute; reflexivity).
  split.
  - exact (proj1 (@entries_in_input_order _ _ H)).
  - apply (proj2 (@entries_in_input_order _ _ H)).
    unfold nondecreasing. simpl. repeat constructor.
Defined.

(** ** C6 *)

(** C6: a word whose duration is zero or negative is left out by the
    validity rule, which returns the entries unchanged rather than raise;
    no entry of a result has such a duration; and the characters ["a";
    "b"], where the end time of the last one is the start time of the
    first, give no entry. *)
Theorem nonpositive_duration_is_dropped :
  (forall subs ws s t,
      (t - s <=? 0)%float = true -> emit subs ws s t = subs) /\
  (forall a subs,
      create_subtitle_list a = Ok subs ->
      Forall (fun e => (entry_duration e <=? 0)%float = false) subs) /\
  (forall t u v,
      create_subtitle_list (Alignment (chars_of "ab") [t; u] [v; t])
      = Ok []).
Proof.
  split; [|split].
  - intros subs ws s t H. unfold emit.
    rewrite (float_le0_not_pos H). reflexivity.
  - intros a subs H. apply create_subtitle_list_words in H.
    destruct H as (segs & H2 & _).
    induction H2 as [|seg e segs subs He _ IH]; constructor; [|exact IH].
    destruct (wa_valid He) as [Hpos _].
    destruct (entry_duration e <=? 0)%float eqn:E; [|reflexivity].
    apply float_le0_not_pos in E. congruence.
  - intros t u v. unfold create_subtitle_list. cbn.
    unfold emit. rewrite float_sub_diag_not_pos. reflexivity.
Qed.

Lemma nonpositive_duration_is_dropped_witness :
  emit [] [of_string "ab"] 0.5%float 0.5%float = [] /\
  Forall (fun e => (entry_duration e <=? 0)%float = false) hi_there_entries.
Proof.
  split.
  - apply (proj1 nonpositive_duration_is_dropped). reflexivity.
  - apply (proj1 (proj2 nonpositive_duration_is_dropped) hi_there_alignment).
    vm_compute. reflexivity.
Defined.

(** ** C7 *)

(** C7: with no characters the result is the empty list, whatever the two
    sequences of times hold. *)
Theorem empty_input_gives_no_entry (starts ends : list float) :
  create_subtitle_list (Alignment [] starts ends) = Ok [].
Proof. reflexivity. Qed.

(** ** C8 *)

(** C8 as stated fails: with no template the fatal error is raised, but
    the speech request has been made by then. *)
Lemma template_error_follows_synthesis :
  templates no_templates = [] /\
  snd (main no_templates "hi there" "default.mp4")
  = Raise (Exception "No templates found in templates/") /\
  existsb is_expensive (fst (main no_templates "hi there" "default.mp4"))
  = true.
Proof. vm_compute. repeat split. Qed.

(** C8, amended: with no template the run ends in an exception before any
    video is loaded, composed or written.  The templates are looked for
    after the speech request and the segmentation, not before: when the
    speech request or the segmentation raises, the run ends in that
    exception; when both return, the exception is the explicit "No
    templates found" one, raised right after the directory is listed. *)
Theorem no_template_stops_before_rendering (w : world)
    (text output : string) :
  templates w = [] ->
  (exists e, snd (main w text output) = Raise e) /\
  existsb is_rendering (fst (main w text output)) = false /\
  (forall e,
      speech w text PETER_GRIFFIN_VOICE_ID = Raise e ->
      snd (main w text output) = Raise e) /\
  (forall response e,
      speech w text PETER_GRIFFIN_VOICE_ID = Ok response ->
      create_subtitle_list (snd response) = Raise e ->
      snd (main w text output) = Raise e) /\
  (forall response subs,
      speech w text PETER_GRIFFIN_VOICE_ID = Ok response ->
      create_subtitle_list (snd response) = Ok subs ->
      main w text output
      = ([ EvSynthesize text PETER_GRIFFIN_VOICE_ID;
           EvPrint ("Generated audio with "
                    ++ string_of_nat (length (characters (snd response)))
                    ++ " word timestamps");
           EvPrint ("Generated " ++ string_of_nat (length subs)
                    ++ " subtitle entries");
           EvListTemplates ],
         Raise (Exception "No templates found in templates/"))).
Proof.
  intros Hw.
  unfold main, generate_voice_with_timestamps, choose_template.
  rewrite Hw.
  destruct (speech w text PETER_GRIFFIN_VOICE_ID) as [response|e] eqn:Hsp.
  - destruct (create_subtitle_list (snd response)) as [subs|e] eqn:Hsub.
    + cbn. rewrite Hsub. cbn.
      split; [eauto|]. split; [reflexivity|].
      split; [discriminate|]. split.
      * intros r e Hr He. injection Hr as <-. congruence.
      * intros r s Hr Hs. injection Hr as <-.
        assert (s = subs) as -> by congruence. reflexivity.
    + cbn. rewrite Hsub. cbn.
      split; [eauto|]. split; [reflexivity|].
      split; [discriminate|]. split.
      * intros r e' Hr He. injection Hr as <-. congruence.
      * intros r s Hr Hs. injection Hr as <-. congruence.
  - cbn. split; [eauto|]. split; [reflexivity|]. split.
    + intros e' He. congruence.
    + split; intros r x Hr; discriminate.
Qed.

Lemma no_template_stops_before_rendering_witness :
  main no_templates "hi there" "default.mp4"
  = ([ EvSynthesize "hi there" PETER_GRIFFIN_VOICE_ID;
       EvPrint "Generated audio with 8 word timestamps";
       EvPrint "Generated 2 subtitle entries";
       EvListTemplates ],
     Raise (Exception "No templates found in templates/")).
Proof.
  apply (proj2 (proj2 (proj2 (proj2
           (@no_template_stops_before_rendering no_templates
              "hi there" "default.mp4" eq_refl))))
           ([], hi_there_alignment) hi_there_entries).
  - reflexivity.
  - vm_compute. reflexivity.
Defined.

(** ** C9 *)

(** C9: the maximum of line 216 over no entry at all is a [ValueError];
    so a run whose segmentation returns the empty list, and which found a
    template, ends in that exception, after the video was opened and
    before anything is written. *)
Theorem no_entry_breaks_the_duration :
  last_subtitle_end [] = Raise ValueError /\
  (forall w text output response,
      speech w text PETER_GRIFFIN_VOICE_ID = Ok response ->
      create_subtitle_list (snd response) = Ok [] ->
      templates w <> [] ->
      snd (main w text output) = Raise ValueError /\
      (exists path,
          In (EvOpenVideo path) (fst (main w text output))) /\
      ~ In (EvWriteVideo ("out/" ++ output)) (fst (main w text output))).
Proof.
  split; [reflexivity|].
  intros w text output response Hsp Hsub Ht.
  destruct (random_choice_nonempty (draw w) Ht) as (path & Hpath).
  unfold main, generate_voice_with_timestamps, choose_template.
  rewrite Hsp, Hpath. cbn. rewrite Hsub. cbn.
  split; [reflexivity|]. split.
  - exists ("templates/" ++ path)%string. simpl. tauto.
  - simpl. intros H. repeat (destruct H as [H|H]; try discriminate). exact H.
Qed.

Lemma no_entry_breaks_the_duration_witness :
  snd (main nothing_to_say " " "default.mp4") = Raise ValueError.
Proof.
  apply (proj2 no_entry_breaks_the_duration nothing_to_say
           " "%string "default.mp4"%string
           ([], Alignment (chars_of " ") [0.0]%float [0.1]%float)).
  - reflexivity.
  - reflexivity.
  - discriminate.
Defined.

(** ** C10 *)

(** C10: at every point of the scan no [" "] is in the word buffer; the
    text of an entry is the concatenation of a stretch of consecutive
    characters of the input, none of them [" "]; and, the characters being
    one-character strings, the text holds no U+0020. *)
Theorem entry_text_has_no_space (a : alignment) :
  (forall k st,
      scan a 0 (firstn k (characters a)) initial = Ok st ->
      Forall (fun c => c <> space) (words st)) /\
  (forall subs,
      create_subtitle_list a = Ok subs ->
      Forall (fun e =>
                (exists j n,
                    entry_text e = join (run (characters a) j n) /\
                    Forall (fun c => c <> space) (run (characters a) j n)) /\
                (Forall (fun c => length c = 1) (characters a) ->
                 ~ In 32%N (entry_text e))) subs).
Proof.
  split.
  - intros k st H.
    apply (@scan_prefix_inv a _ (skipn k (characters a))) in H.
    + apply H.
    + symmetry. apply firstn_skipn.
  - intros subs H. apply create_subtitle_list_words in H.
    destruct H as (segs & H2 & _).
    induction H2 as [|[j n] e segs subs He _ IH]; constructor; [|exact IH].
    destruct He as [_ Hns _ _ Htext _ _ _]; simpl in *. split.
    + exists j, n. split; assumption.
    + intros Hone. rewrite Htext. apply join_no_space; [assumption|].
      apply Forall_run. assumption.
Qed.

Lemma entry_text_has_no_space_witness :
  Forall (fun c => c <> space) [of_string "h"; of_string "i"] /\
  Forall (fun e =>
            (exists j n,
                entry_text e = join (run (characters hi_there_alignment) j n) /\
                Forall (fun c => c <> space)
                       (run (characters hi_there_alignment) j n)) /\
            (Forall (fun c => length c = 1) (characters hi_there_alignment) ->
             ~ In 32%N (entry_text e))) hi_there_entries /\
  ~ In 32%N (of_string "hi").
Proof.
  assert (H : create_subtitle_list hi_there_alignment = Ok hi_there_entries)
    by (vm_compute; reflexivity).
  split; [|split].
  - apply (proj1 (entry_text_has_no_space hi_there_alignment) 2
             (Locals [] [of_string "h"; of_string "i"] (Some 0.0%float))).
    reflexivity.
  - exact (proj2 (entry_text_has_no_space hi_there_alignment) _ H).
  - pose proof (proj2 (entry_text_has_no_space hi_there_alignment) _ H) as HF.
    apply Forall_inv in HF. destruct HF as [_ HF]. apply HF.
    repeat constructor.
Defined.

(** * Further properties of the code *)

(** ** Order and NaN on binary64 floats *)

Lemma SFltb_trans (x y z : spec_float) :
  SFltb x y = true -> SFltb y z = true -> SFltb x z = true.
Proof.
  unfold SFltb, SFcompare.
  destruct x as [[|]|[|]| |[|] mx ex], y as [[|]|[|]| |[|] my ey],
    z as [[|]|[|]| |[|] mz ez]; try congruence; try reflexivity;
    destruct (Z.compare_spec ex ey), (Z.compare_spec ey ez),
      (Z.compare_spec ex ez); subst; try congruence; try lia;
    rewrite !Pos.compare_cont_spec; simpl;
    destruct (Pos.compare_spec mx my), (Pos.compare_spec my mz),
      (Pos.compare_spec mx mz); subst; simpl; try congruence; lia.
Qed.

Lemma float_ltb_trans (x y z : float) :
  (x <? y)%float = true -> (y <? z)%float = true -> (x <? z)%float = true.
Proof. rewrite !ltb_spec. apply SFltb_trans. Qed.

Lemma float_ltb_irrefl (x : float) : (x <? x)%float = false.
Proof.
  rewrite ltb_spec. unfold SFltb, SFcompare.
  destruct (Prim2SF x) as [[|]|[|]| |[|] m e]; try reflexivity;
    rewrite Z.compare_refl, Pos.compare_cont_spec, Pos.compare_refl;
    reflexivity.
Qed.

Lemma float_ltb_asym (x y : float) :
  (x <? y)%float = true -> (y <? x)%float = false.
Proof.
  intros H. destruct (y <? x)%float eqn:E; [|reflexivity].
  rewrite <- (float_ltb_irrefl x). symmetry.
  eapply float_ltb_trans; eassumption.
Qed.

Lemma is_nan_spec (x : float) :
  is_nan x = true <-> Prim2SF x = S754_nan.
Proof.
  unfold is_nan. rewrite FloatAxioms.eqb_spec. unfold SFeqb, SFcompare.
  destruct (Prim2SF x) as [[|]|[|]| |[|] m e]; simpl;
    try (split; congruence);
    rewrite Z.compare_refl, Pos.compare_cont_spec, Pos.compare_refl;
    simpl; split; congruence.
Qed.

Lemma is_nan_false (x : float) :
  Prim2SF x <> S754_nan -> is_nan x = false.
Proof.
  intros H. destruct (is_nan x) eqn:E; [|reflexivity].
  apply is_nan_spec in E. contradiction.
Qed.

(** A positive difference has neither operand nor result NaN. *)
Lemma positive_difference_no_nan (s t : float) :
  (0 <? t - s)%float = true ->
  is_nan s = false /\ is_nan t = false /\ is_nan (t - s) = false.
Proof.
  intros H. rewrite ltb_spec in H.
  assert (Hd : Prim2SF (t - s) <> S754_nan).
  { intros E. rewrite E in H. discriminate. }
  rewrite sub_spec in Hd.
  repeat split; apply is_nan_false.
  - intros E. rewrite E in Hd. apply Hd.
    destruct (Prim2SF t) as [[|]|[|]| |[|] m e]; reflexivity.
  - intros E. rewrite E in Hd. apply Hd. reflexivity.
  - rewrite sub_spec. exact Hd.
Qed.

(** ** The maximum of line 216 *)

Lemma fold_max_spec (rest : list float) (x0 : float) :
  let m := fold_left (fun m y => if (m <? y)%float then y else m) rest x0 in
  (m = x0 \/ In m rest) /\
  (m = x0 \/ (x0 <? m)%float = true) /\
  (forall x, In x rest -> (m <? x)%float = false).
Proof.
  revert x0; induction rest as [|y rest IH]; intros x0; simpl.
  - split; [auto|]. split; [auto|]. intros x [].
  - set (x1 := if (x0 <? y)%float then y else x0).
    destruct (IH x1) as (Hin & Hge & Hall).
    set (m := fold_left _ rest x1) in *.
    assert (Hx1 : (x1 = x0 /\ (x0 <? y)%float = false) \/
                  (x1 = y /\ (x0 <? y)%float = true)).
    { unfold x1. destruct (x0 <? y)%float; auto. }
    split; [|split].
    + destruct Hin as [->|Hin]; [|auto].
      destruct Hx1 as [[-> _]|[-> _]]; auto.
    + destruct Hge as [->|Hge].
      * destruct Hx1 as [[-> _]|[-> H]]; auto.
      * destruct Hx1 as [[E _]|[E H]]; rewrite E in Hge; [auto|].
        right. eapply float_ltb_trans; eassumption.
    + intros x [<-|Hx]; [|auto].
      destruct Hge as [->|Hge].
      * destruct Hx1 as [[-> H]|[-> _]]; [exact H|].
        apply float_ltb_irrefl.
      * destruct Hx1 as [[E H]|[E _]]; rewrite E in Hge.
        -- destruct (m <? y)%float eqn:Hm; [|reflexivity].
           rewrite <- H. symmetry. eapply float_ltb_trans; eassumption.
        -- apply float_ltb_asym. assumption.
Qed.

Lemma max_spec (xs : list float) (m : float) :
  Py.max xs = Ok m ->
  In m xs /\ forall x, In x xs -> (m <? x)%float = false.
Proof.
  destruct xs as [|x0 rest]; simpl; [discriminate|].
  intros H. injection H as <-.
  destruct (fold_max_spec rest x0) as (Hin & Hge & Hall).
  split; [destruct Hin; auto|].
  intros x [<-|Hx]; [|auto].
  destruct Hge as [->|Hge].
  - apply float_ltb_irrefl.
  - apply float_ltb_asym. assumption.
Qed.

(** ** Where the loop stops *)

Lemma nth_error_run (chars : list str) (j n m : nat) :
  m < n -> nth_error (run chars j n) m = nth_error chars (j + m).
Proof.
  intros H. unfold run. rewrite nth_error_firstn.
  apply Nat.ltb_lt in H. rewrite H. apply nth_error_skipn.
Qed.

Lemma firstn_add_run (chars : list str) (j n : nat) :
  firstn (j + n) chars = firstn j chars ++ run chars j n.
Proof.
  revert chars; induction j as [|j IH]; intros chars.
  - reflexivity.
  - destruct chars as [|c chars]; simpl.
    + unfold run. simpl. rewrite firstn_nil. reflexivity.
    + rewrite IH. reflexivity.
Qed.

Lemma loop_body_raises_state (a : alignment) (i : nat) (char : str)
    (st : locals) (e : exn) :
  loop_body a i char st = Raise e -> exists s, start_time st = Some s.
Proof.
  intros H. destruct (is_separator char) eqn:Hsep.
  - unfold loop_body in H. rewrite Hsep in H.
    destruct (truthy (words st)), (start_time st) as [s|];
      try discriminate. eauto.
  - apply is_separator_false in Hsep.
    destruct (loop_body_nonspace a i st Hsep) as (s' & E & _). congruence.
Qed.

Lemma scan_raise_point (a : alignment) (chars : list str) (i : nat)
    (st : locals) (e : exn) :
  scan a i chars st = Raise e ->
  exists pre c post st',
    chars = pre ++ c :: post /\
    scan a i pre st = Ok st' /\
    loop_body a (i + length pre) c st' = Raise e.
Proof.
  revert i st; induction chars as [|c chars IH]; intros i st H;
    simpl in H; [discriminate|].
  destruct (loop_body a i c st) as [st1|e1] eqn:Hbody; simpl in H.
  - destruct (IH _ _ H) as (pre & c' & post & st' & -> & Hpre & Hc').
    exists (c :: pre), c', post, st'. split; [reflexivity|]. split.
    + simpl. rewrite Hbody. exact Hpre.
    + simpl. replace (i + S (length pre)) with (S i + length pre) by lia.
      exact Hc'.
  - injection H as ->. exists [], c, chars, st.
    split; [reflexivity|]. split; [reflexivity|].
    simpl. rewrite Nat.add_0_r. exact Hbody.
Qed.

(** From the last index that has a start time on, a word that goes on has
    its start time. *)
Lemma start_known_before_lookup (a : alignment) (k : nat) :
  unguarded_lookup a k ->
  forall d,
    length (character_start_times_seconds a) + d <= k ->
    exists st s,
      scan a 0 (firstn (length (character_start_times_seconds a) + d)
                       (characters a)) initial = Ok st /\
      start_time st = Some s.
Proof.
  intros ((HL & HLk) & Hk & Hword).
  set (L := length (character_start_times_seconds a)) in *.
  assert (Hstep : forall m st c,
    nth_error (characters a) m = Some c -> c <> space ->
    scan a 0 (firstn m (characters a)) initial = Ok st ->
    exists start',
      scan a 0 (firstn (S m) (characters a)) initial
      = Ok (Locals (subtitles st) (words st ++ [c]) start') /\
      start' = match start_time st with
               | Some s => Some s
               | None => nth_error (character_start_times_seconds a) m
               end).
  { intros m st c Hc Hns Hscan.
    rewrite (firstn_snoc _ _ Hc), scan_app, Hscan. simpl.
    assert (Hlen : length (firstn m (characters a)) = m).
    { apply firstn_length_le.
      assert (m < length (characters a))
        by (apply nth_error_Some; congruence). lia. }
    rewrite Hlen.
    destruct (loop_body_nonspace a m st Hns) as (start' & -> & Hs).
    simpl. eauto. }
  induction d as [|d IH]; intros Hd.
  - rewrite Nat.add_0_r.
    destruct (Hword (L - 1)) as (c & Hc & Hns); [lia|].
    destruct (@scan_total a (firstn (L - 1) (characters a)) 0 initial)
      as (st0 & Hscan0).
    { intros i Hi.
      assert (i < length (firstn (L - 1) (characters a)))
        by (apply nth_error_Some; congruence).
      pose proof (firstn_le_length (L - 1) (characters a)). lia. }
    destruct (Hstep _ _ _ Hc Hns Hscan0) as (start' & Hscan & Hs).
    replace (S (L - 1)) with L in Hscan by lia.
    destruct (@getitem_in_range _ (character_start_times_seconds a) (L - 1))
      as (s & _ & Hnth); [fold L; lia|].
    rewrite Hnth in Hs.
    exists (Locals (subtitles st0) (words st0 ++ [c]) start').
    destruct (start_time st0) as [s0|]; subst start';
      (eexists; split; [exact Hscan|reflexivity]).
  - destruct IH as (st & s & Hscan & Hs); [lia|].
    destruct (Hword (L + d)) as (c & Hc & Hns); [lia|].
    destruct (Hstep _ _ _ Hc Hns Hscan) as (start' & Hscan' & Hs').
    rewrite Hs in Hs'.
    replace (L + S d) with (S (L + d)) by lia.
    exists (Locals (subtitles st) (words st ++ [c]) start'), s.
    split; [exact Hscan'|exact Hs'].
Qed.

Lemma raises_at_unguarded_lookup (a : alignment) (k : nat) :
  unguarded_lookup a k -> create_subtitle_list a = Raise IndexError.
Proof.
  intros Hu. pose proof Hu as ((HL & HLk) & Hk & Hword).
  set (L := length (character_start_times_seconds a)) in *.
  destruct (@start_known_before_lookup a k Hu (k - L))
    as (st & s & Hscan & Hs); [fold L; lia|].
  fold L in Hscan. replace (L + (k - L)) with k in Hscan by lia.
  destruct (nth_error_split _ _ Hk) as (l1 & l2 & Hchars & Hlen).
  assert (Hl1 : firstn k (characters a) = l1).
  { rewrite Hchars, <- Hlen, firstn_app, Nat.sub_diag, firstn_all.
    simpl. apply app_nil_r. }
  rewrite Hl1 in Hscan.
  pose proof (@scan_prefix_inv a l1 (space :: l2) st Hchars Hscan) as Hinv.
  destruct Hinv as (Hik & _ & segs & _ & Hst). rewrite Hs in Hst.
  destruct Hst as (j & Hj & Hrun & _).
  assert (Hne : truthy (words st) = true).
  { apply truthy_true. intros E. rewrite E in Hrun. symmetry in Hrun.
    apply run_nil_inv in Hrun; lia. }
  unfold create_subtitle_list. rewrite Hchars, scan_app, Hscan. simpl.
  unfold loop_body. simpl. rewrite Hne, Hs. unfold getitem.
  rewrite Hlen.
  assert (Hnone : nth_error (character_start_times_seconds a) k = None)
    by (apply nth_error_None; fold L; lia).
  rewrite Hnone. reflexivity.
Qed.

Lemma unguarded_lookup_at_raise (a : alignment) (e : exn) :
  create_subtitle_list a = Raise e ->
  e = IndexError /\ exists k, unguarded_lookup a k.
Proof.
  unfold create_subtitle_list. intros H.
  destruct (scan a 0 (characters a) initial) as [st|e'] eqn:Hscan;
    simpl in H.
  { assert (Hinv : scan_inv a (length (characters a)) st).
    { apply (@scan_prefix_inv a (characters a) [] st); auto.
      rewrite app_nil_r. reflexivity. }
    destruct (finish_inv Hinv) as (subs & _ & Hfin & _). congruence. }
  injection H as ->.
  destruct (scan_raise_point _ _ _ _ Hscan)
    as (pre & c & post & st & Hchars & Hpre & Hbody).
  simpl in Hbody.
  destruct (loop_body_raises _ _ _ _ Hbody) as (-> & -> & HL).
  destruct (loop_body_raises_state _ _ _ _ Hbody) as (s & Hs).
  split; [reflexivity|]. exists (length pre).
  pose proof (@scan_prefix_inv a pre (space :: post) st Hchars Hpre) as Hinv.
  destruct Hinv as (Hik & Hws & segs & _ & Hst). rewrite Hs in Hst.
  destruct Hst as (j & Hj & Hrun & _ & Hstart & _).
  assert (HjL : j < length (character_start_times_seconds a))
    by (apply nth_error_Some; congruence).
  split; [lia|]. split.
  - rewrite Hchars, nth_error_app2, Nat.sub_diag by lia. reflexivity.
  - intros i Hi.
    assert (Hnth : nth_error (words st) (i - j)
                   = nth_error (characters a) i).
    { rewrite Hrun, nth_error_run by lia. f_equal. lia. }
    destruct (nth_error (characters a) i) as [c|] eqn:Hc.
    + exists c. split; [reflexivity|].
      rewrite Forall_forall in Hws. apply Hws.
      eapply nth_error_In. exact Hnth.
    + apply nth_error_None in Hc. lia.
Qed.

(** ** Nothing valid is lost *)

Lemma emit_keeps (subs : list SubtitleEntry) (ws : list str) (s t : float)
    (e : SubtitleEntry) :
  In e subs -> In e (emit subs ws s t).
Proof.
  intros H. destruct (emit_cases subs ws s t) as [[-> _]|[-> _]]; [|exact H].
  apply in_or_app. left. exact H.
Qed.

Lemma loop_body_keeps (a : alignment) (i : nat) (char : str)
    (st st' : locals) (e : SubtitleEntry) :
  loop_body a i char st = Ok st' ->
  In e (subtitles st) -> In e (subtitles st').
Proof.
  intros H Hin. destruct (is_separator char) eqn:Hsep.
  - unfold loop_body in H. rewrite Hsep in H.
    destruct (truthy (words st)), (start_time st) as [s|];
      try (injection H as <-; exact Hin).
    destruct (getitem (character_start_times_seconds a) i) as [t|];
      simpl in H; [|discriminate].
    injection H as <-. simpl. apply emit_keeps. exact Hin.
  - apply is_separator_false in Hsep.
    destruct (loop_body_nonspace a i st Hsep) as (s' & E & _).
    rewrite E in H. injection H as <-. exact Hin.
Qed.

Lemma scan_keeps (a : alignment) (chars : list str) (i : nat)
    (st st' : locals) (e : SubtitleEntry) :
  scan a i chars st = Ok st' ->
  In e (subtitles st) -> In e (subtitles st').
Proof.
  revert i st; induction chars as [|c chars IH]; intros i st H Hin;
    simpl in H.
  - injection H as <-. exact Hin.
  - destruct (loop_body a i c st) as [st1|e1] eqn:Hbody; simpl in H;
      [|discriminate].
    eapply IH; [exact H|]. eapply loop_body_keeps; eassumption.
Qed.

Lemma finish_keeps (a : alignment) (st : locals)
    (subs : list SubtitleEntry) (e : SubtitleEntry) :
  finish a st = Ok subs -> In e (subtitles st) -> In e subs.
Proof.
  unfold finish. intros H Hin.
  destruct (truthy (words st)), (start_time st) as [s|];
    try (injection H as <-; exact Hin).
  destruct (last_index (characters a)) as [i|]; [|discriminate].
  destruct (i <? length (character_end_times_seconds a));
    [|injection H as <-; exact Hin].
  destruct (getitem (character_end_times_seconds a) i) as [t|];
    simpl in H; [|discriminate].
  injection H as <-. apply emit_keeps. exact Hin.
Qed.

Lemma skipn_cons_nth {A} (l : list A) (k : nat) (x : A) :
  nth_error l k = Some x -> skipn k l = x :: skipn (S k) l.
Proof.
  revert l; induction k as [|k IH]; intros [|y l] H; simpl in *;
    try discriminate.
  - congruence.
  - apply IH. exact H.
Qed.

Lemma emit_valid (subs : list SubtitleEntry) (ws : list str)
    (s t : float) :
  valid_entry (join ws, s, (t - s)%float) ->
  emit subs ws s t = subs ++ [(join ws, s, (t - s)%float)].
Proof.
  intros [Hpos Hstrip]. unfold emit.
  unfold entry_duration, entry_text in *. simpl in *. rewrite Hpos.
  destruct (strip (join ws)); [congruence|reflexivity].
Qed.

(** A word of the input that has its start time, its closing time and
    passes the validity rule is in the result. *)
Lemma word_at_emitted (a : alignment) (subs : list SubtitleEntry)
    (seg : nat * nat) (e : SubtitleEntry) :
  create_subtitle_list a = Ok subs -> word_at a seg e -> In e subs.
Proof.
  destruct seg as [j n]. destruct e as [[text s] d].
  intros Hres [[Hn HjN] Hns Hleft Hright Htext Hstart (t & Hcl & Hdur) Hvalid].
  unfold entry_text, entry_start, entry_duration in *. simpl in *.
  subst text d.
  set (chars := characters a) in *.
  assert (Hlenj : length (firstn j chars) = j)
    by (apply firstn_length_le; lia).
  assert (Hsplit : chars = firstn j chars ++ run chars j n ++ skipn (j + n) chars).
  { rewrite app_assoc, <- firstn_add_run. symmetry. apply firstn_skipn. }
  unfold create_subtitle_list in Hres. fold chars in Hres.
  rewrite Hsplit, scan_app in Hres. simpl in Hres. rewrite Hlenj in Hres.
  destruct (scan a 0 (firstn j chars) initial) as [st0|] eqn:Hscan0;
    simpl in Hres; [|discriminate].
  assert (Hinv : scan_inv a (length (firstn j chars)) st0).
  { apply (@scan_prefix_inv a _ (skipn j chars)); [|exact Hscan0].
    symmetry. apply firstn_skipn. }
  assert (Hnone : start_time st0 = None).
  { apply (@no_start_at_boundary a (firstn j chars) (skipn j chars));
      [symmetry; apply firstn_skipn| |exact Hinv].
    destruct Hleft as [->|(k & -> & Hk)]; [left; reflexivity|].
    right. exists (firstn k chars). apply firstn_snoc. exact Hk. }
  rewrite Hlenj in Hinv.
  destruct Hinv as (_ & _ & segs & _ & Hst). rewrite Hnone in Hst.
  assert (Hnil : words st0 = []).
  { destruct Hst as (_ & [[E _]|[_ HL]]); [exact E|].
    assert (j < length (character_start_times_seconds a))
      by (apply nth_error_Some; congruence). lia. }
  rewrite scan_app, (scan_nonspace a j st0 Hns) in Hres. simpl in Hres.
  rewrite Hnil, Hnone in Hres. simpl in Hres.
  assert (Hrl : length (run chars j n) = n) by (apply run_length; exact HjN).
  rewrite Hrl in Hres.
  destruct (run chars j n) as [|c w] eqn:Hrun; [simpl in Hrl; lia|].
  rewrite Hstart in Hres.
  destruct Hcl as [[Hsp Ht]|[HN Ht]].
  - fold chars in Hsp.
    rewrite (skipn_cons_nth _ _ Hsp) in Hres. simpl in Hres.
    unfold loop_body in Hres. simpl in Hres. unfold getitem in Hres.
    rewrite Ht in Hres. simpl in Hres.
    match type of Hres with
    | Py.bind ?x _ = _ => destruct x as [stF|] eqn:HscanF
    end; simpl in Hres; [|discriminate].
    eapply finish_keeps; [exact Hres|].
    eapply scan_keeps; [exact HscanF|]. simpl.
    rewrite emit_valid by exact Hvalid.
    apply in_or_app. right. left. reflexivity.
  - fold chars in HN. rewrite HN, skipn_all in Hres. simpl in Hres.
    unfold finish in Hres. simpl in Hres.
    rewrite last_index_length in Hres
      by (intros E; fold chars in E; rewrite E in HjN; simpl in HjN; lia).
    fold chars in Hres. rewrite <- HN in Hres.
    assert (Hend : (j + n - 1 <? length (character_end_times_seconds a))
                   = true).
    { apply Nat.ltb_lt. apply nth_error_Some. congruence. }
    rewrite Hend in Hres. unfold getitem in Hres. rewrite Ht in Hres.
    simpl in Hres. injection Hres as <-.
    rewrite emit_valid by exact Hvalid.
    apply in_or_app. right. left. reflexivity.
Qed.

(** ** How many entries *)

Lemma sorted_segs_count (N : nat) (segs : list (nat * nat)) :
  StronglySorted seg_before segs ->
  Forall (fun s => 0 < snd s /\ fst s + snd s <= N) segs ->
  forall lo,
    lo <= N + 1 ->
    Forall (fun s => lo <= fst s) segs ->
    lo + 2 * length segs <= N + 1.
Proof.
  induction 1 as [|seg segs Hs IH Hall]; intros Hb lo Hlo Hge; simpl.
  - lia.
  - inversion Hb as [|? ? [Hn HN] Hb']; subst.
    inversion Hge as [|? ? Hj _]; subst.
    specialize (IH Hb' (lo + 2)).
    assert (lo + 2 + 2 * length segs <= N + 1); [|lia].
    apply IH; [lia|].
    eapply Forall_impl; [|exact Hall]. unfold seg_before. intros; lia.
Qed.

(** ** Text that strips to nothing *)

Lemma lstrip_all_whitespace (s : str) :
  forallb is_whitespace s = true -> lstrip s = [].
Proof.
  induction s as [|c s IH]; simpl; [reflexivity|].
  intros H. apply andb_true_iff in H. destruct H as [-> H]. auto.
Qed.

Lemma join_all_whitespace (ws : list str) :
  Forall (fun c => forallb is_whitespace c = true) ws ->
  forallb is_whitespace (join ws) = true.
Proof.
  unfold join. induction 1 as [|c ws Hc _ IH]; simpl; [reflexivity|].
  rewrite forallb_app, Hc, IH. reflexivity.
Qed.

(** ** The steps of [__main__] *)

Lemma tell_all_spec (evs : list event) : tell_all evs = (evs, Ok tt).
Proof.
  induction evs as [|ev evs IH]; [reflexivity|].
  simpl. rewrite IH. reflexivity.
Qed.

Lemma random_choice_In {A} (pick : nat) (xs : list A) (x : A) :
  random_choice pick xs = Ok x -> In x xs.
Proof.
  unfold random_choice. destruct xs as [|y xs]; [discriminate|].
  intros H. apply getitem_Ok in H. eapply nth_error_In. exact H.
Qed.

(** ** X1 *)

(** X1: [create_subtitle_list] raises nothing but [IndexError], and it
    raises it exactly when some [" "] without a start time closes a word
    that has one: the characters from the last index with a start time up
    to that [" "] are all other than [" "]. *)
Theorem raises_exactly_at_unguarded_lookup (a : alignment) :
  (forall e, create_subtitle_list a = Raise e -> e = IndexError) /\
  (create_subtitle_list a = Raise IndexError <->
   exists k, unguarded_lookup a k).
Proof.
  split; [|split].
  - intros e H. apply unguarded_lookup_at_raise in H. apply H.
  - intros H. apply unguarded_lookup_at_raise in H. apply H.
  - intros (k & Hk). eapply raises_at_unguarded_lookup. exact Hk.
Qed.

Lemma raises_exactly_at_unguarded_lookup_witness :
  create_subtitle_list short_start_times = Raise IndexError.
Proof.
  apply (proj2 (raises_exactly_at_unguarded_lookup short_start_times)).
  exists 1. split; [simpl; lia|]. split; [reflexivity|].
  intros i Hi. simpl in Hi. assert (i = 0) as -> by lia.
  exists (of_string "a"). split; [reflexivity|discriminate].
Defined.

(** ** X2 *)

(** X2: when every character has a start time, that is when
    [character_start_times_seconds] is at least as long as [characters],
    the function returns a list, however short
    [character_end_times_seconds] is. *)
Theorem returns_when_start_times_cover_characters (a : alignment) :
  length (characters a) <= length (character_start_times_seconds a) ->
  exists subs, create_subtitle_list a = Ok subs.
Proof.
  intros H. apply create_subtitle_list_total. intros k Hk.
  assert (k < length (characters a)) by (apply nth_error_Some; congruence).
  lia.
Qed.

Lemma returns_when_start_times_cover_characters_witness :
  exists subs,
    create_subtitle_list (Alignment (chars_of "a b") [1; 2; 3]%float [])
    = Ok subs.
Proof.
  apply (@returns_when_start_times_cover_characters
           (Alignment (chars_of "a b") [1; 2; 3]%float [])).
  simpl. lia.
Defined.

(** ** X3 *)

(** X3: the result holds the entries of the words of the input that have
    a start time, a closing time and pass the validity rule, and nothing
    else: no such word is lost. *)
Theorem result_is_exactly_the_valid_words (a : alignment)
    (subs : list SubtitleEntry) :
  create_subtitle_list a = Ok subs ->
  forall e, In e subs <-> exists seg, word_at a seg e.
Proof.
  intros H e. split.
  - intros Hin. destruct (@create_subtitle_list_words _ _ H) as (segs & H2 & _).
    clear H. induction H2 as [|seg e' segs subs He _ IH].
    + destruct Hin.
    + destruct Hin as [<-|Hin]; [eauto|auto].
  - intros (seg & Hw). eapply word_at_emitted; eassumption.
Qed.

Lemma result_is_exactly_the_valid_words_witness :
  exists seg,
    word_at hi_there_alignment seg (of_string "there", 0.3, 0.8 - 0.3)%float.
Proof.
  apply (proj1 (@result_is_exactly_the_valid_words hi_there_alignment
                  hi_there_entries ltac:(vm_compute; reflexivity) _)).
  right. left. reflexivity.
Defined.

(** ** X4 *)

(** X4: two entries are at least one separator apart, so [n] characters
    give at most [(n + 1) / 2] entries. *)
Theorem entries_are_at_most_half_the_characters (a : alignment)
    (subs : list SubtitleEntry) :
  create_subtitle_list a = Ok subs ->
  2 * length subs <= length (characters a) + 1.
Proof.
  intros H. destruct (@create_subtitle_list_words _ _ H) as (segs & H2 & Hs).
  rewrite <- (Forall2_length H2).
  apply (@sorted_segs_count (length (characters a)) segs Hs) with (lo := 0).
  - clear Hs H. induction H2 as [|seg e segs subs He _ IH];
      [constructor|].
    constructor; [exact (wa_len He)|exact IH].
  - lia.
  - apply Forall_forall. intros; lia.
Qed.

Lemma entries_are_at_most_half_the_characters_witness :
  2 * length hi_there_entries <= length (characters hi_there_alignment) + 1.
Proof.
  apply (@entries_are_at_most_half_the_characters hi_there_alignment).
  vm_compute. reflexivity.
Defined.

(** ** X5 *)

(** X5: characters that are all whitespace (spaces, tabs, newlines) give
    no entry: a word of tabs or newlines is built, then dropped by
    [text.strip()]. *)
Theorem whitespace_only_gives_no_entry (a : alignment)
    (subs : list SubtitleEntry) :
  Forall (fun c => forallb is_whitespace c = true) (characters a) ->
  create_subtitle_list a = Ok subs ->
  subs = [].
Proof.
  intros Hws H. destruct (@create_subtitle_list_words _ _ H) as (segs & H2 & _).
  destruct H2 as [|seg e segs subs He _]; [reflexivity|exfalso].
  destruct (wa_valid He) as [_ Hstrip]. apply Hstrip.
  rewrite (wa_text He). unfold strip.
  rewrite lstrip_all_whitespace; [reflexivity|].
  apply join_all_whitespace. apply Forall_run. exact Hws.
Qed.

Lemma whitespace_only_gives_no_entry_witness :
  match create_subtitle_list
          (Alignment [tab; newline; space; tab] [1; 2; 3; 4]%float
                     [2; 3; 4; 5]%float) with
  | Ok subs => subs = []
  | Raise _ => False
  end.
Proof.
  destruct (create_subtitle_list
              (Alignment [tab; newline; space; tab] [1; 2; 3; 4]%float
                         [2; 3; 4; 5]%float)) as [subs|e] eqn:E.
  - apply (@whitespace_only_gives_no_entry
             (Alignment [tab; newline; space; tab] [1; 2; 3; 4]%float
                        [2; 3; 4; 5]%float) subs).
    + repeat constructor.
    + exact E.
  - vm_compute in E. discriminate.
Defined.

(** ** X6 *)

(** X6: no entry carries a NaN, as start time or as duration, whatever
    the times of the input are: a NaN makes [duration > 0] false. *)
Theorem entries_hold_no_nan (a : alignment) (subs : list SubtitleEntry) :
  create_subtitle_list a = Ok subs ->
  Forall (fun e => is_nan (entry_start e) = false /\
                   is_nan (entry_duration e) = false) subs.
Proof.
  intros H. destruct (@create_subtitle_list_words _ _ H) as (segs & H2 & _).
  clear H. induction H2 as [|seg e segs subs He _ IH]; [constructor|].
  constructor; [|exact IH].
  destruct (wa_duration He) as (t & _ & Hd).
  destruct (wa_valid He) as [Hpos _]. rewrite Hd in *.
  apply positive_difference_no_nan in Hpos. tauto.
Qed.

Lemma entries_hold_no_nan_witness :
  Forall (fun e => is_nan (entry_start e) = false /\
                   is_nan (entry_duration e) = false)
         [ (of_string "b", 3, 1) ]%float.
Proof.
  apply (@entries_hold_no_nan
           (Alignment (chars_of "a b ") [nan; 2; 3; 4]%float
                      [1; 2; 3; 4]%float)).
  vm_compute. reflexivity.
Defined.

(** ** X7 *)

(** X7: with no start time at all the function returns the empty list: no
    word ever gets a start time, so none is closed and none is looked
    up. *)
Theorem no_start_times_give_no_entry (a : alignment) :
  character_start_times_seconds a = [] ->
  create_subtitle_list a = Ok [].
Proof.
  intros HL. destruct (create_subtitle_list a) as [subs|e] eqn:H.
  - destruct (@create_subtitle_list_words _ _ H) as (segs & H2 & _).
    destruct H2 as [|seg e segs subs He _]; [reflexivity|exfalso].
    pose proof (wa_start He) as Hs. rewrite HL in Hs.
    destruct (fst seg); discriminate.
  - exfalso. apply unguarded_lookup_at_raise in H.
    destruct H as (_ & k & (HL' & _) & _). rewrite HL in HL'.
    simpl in HL'. lia.
Qed.

Lemma no_start_times_give_no_entry_witness :
  create_subtitle_list (Alignment (chars_of "hi there") [] [1; 2]%float)
  = Ok [].
Proof.
  apply (@no_start_times_give_no_entry
           (Alignment (chars_of "hi there") [] [1; 2]%float)).
  reflexivity.
Defined.

(** ** X8 *)

(** X8: the maximum of line 216 fails only on the empty list; otherwise it
    is the end of one of the entries, and no entry ends after it. *)
Theorem last_subtitle_end_is_the_latest_end (subs : list SubtitleEntry) :
  (last_subtitle_end subs = Raise ValueError <-> subs = []) /\
  (forall m,
      last_subtitle_end subs = Ok m ->
      (exists e, In e subs /\ m = entry_end e) /\
      (forall e, In e subs -> (m <? entry_end e)%float = false)).
Proof.
  unfold last_subtitle_end. split.
  - destruct subs; simpl; split; congruence.
  - intros m H. apply max_spec in H. destruct H as [Hin Hall]. split.
    + apply in_map_iff in Hin. destruct Hin as (e & <- & He). eauto.
    + intros e He. apply Hall.
      change (entry_end e)
        with ((fun e => (entry_start e + entry_duration e)%float) e).
      apply in_map. exact He.
Qed.

Lemma last_subtitle_end_is_the_latest_end_witness :
  (exists e, In e hi_there_entries /\ (0.3 + (0.8 - 0.3))%float = entry_end e) /\
  (forall e, In e hi_there_entries ->
             (0.3 + (0.8 - 0.3) <? entry_end e)%float = false).
Proof.
  apply (proj2 (last_subtitle_end_is_the_latest_end hi_there_entries)).
  vm_compute. reflexivity.
Defined.

(** ** X9 *)

(** X9: choosing a template lists the directory and nothing else; it
    raises the "No templates found" exception when the listing is empty,
    and otherwise returns one of the listed names. *)
Theorem choose_template_picks_a_listed_file (w : world) :
  fst (choose_template w) = [EvListTemplates] /\
  (templates w = [] ->
   snd (choose_template w)
   = Raise (Exception "No templates found in templates/")) /\
  (templates w <> [] ->
   exists path, snd (choose_template w) = Ok path /\ In path (templates w)).
Proof.
  unfold choose_template. split; [|split].
  - cbn. destruct (random_choice (draw w) (templates w)) as [p|[]];
      reflexivity.
  - intros ->. reflexivity.
  - intros Ht.
    destruct (random_choice_nonempty (draw w) Ht) as (path & Hpath).
    exists path. cbn. rewrite Hpath. split; [reflexivity|].
    eapply random_choice_In. exact Hpath.
Qed.

Lemma choose_template_picks_a_listed_file_witness :
  snd (choose_template no_templates)
  = Raise (Exception "No templates found in templates/") /\
  exists path,
    snd (choose_template nothing_to_say) = Ok path /\
    In path (templates nothing_to_say).
Proof.
  split.
  - apply (proj1 (proj2 (choose_template_picks_a_listed_file no_templates))).
    reflexivity.
  - apply (proj2 (proj2 (choose_template_picks_a_listed_file nothing_to_say))).
    discriminate.
Defined.

(** ** The runs of [__main__], case by case *)

Lemma main_cases (w : world) (text output : string) :
  let synth := EvSynthesize text PETER_GRIFFIN_VOICE_ID in
  match speech w text PETER_GRIFFIN_VOICE_ID with
  | Raise e => main w text output = ([synth], Raise e)
  | Ok response =>
      let heard :=
        EvPrint ("Generated audio with "
                 ++ string_of_nat (length (characters (snd response)))
                 ++ " word timestamps") in
      match create_subtitle_list (snd response) with
      | Raise e => main w text output = ([synth; heard], Raise e)
      | Ok subs =>
          let counted :=
            EvPrint ("Generated " ++ string_of_nat (length subs)
                     ++ " subtitle entries") in
          let listed := [synth; heard; counted; EvListTemplates] in
          match random_choice (draw w) (templates w) with
          | Raise IndexError =>
              main w text output
              = (listed, Raise (Exception "No templates found in templates/"))
          | Raise e => main w text output = (listed, Raise e)
          | Ok path =>
              let opened :=
                listed ++ [EvOpenVideo ("templates/" ++ path); EvCrop;
                           EvAddImage] ++ map EvSubtitleClip subs in
              match last_subtitle_end subs with
              | Raise e => main w text output = (opened, Raise e)
              | Ok last_end =>
                  main w text output
                  = (opened ++
                     [EvSetDuration (last_end + 2)%float;
                      EvWriteTempAudio (fst response); EvLoadAudio;
                      EvRemoveTempAudio; EvCompose;
                      EvWriteVideo ("out/" ++ output); EvClose],
                     Ok tt)
              end
          end
      end
  end.
Proof.
  unfold main, generate_voice_with_timestamps, choose_template.
  destruct (speech w text PETER_GRIFFIN_VOICE_ID) as [response|e];
    [|reflexivity].
  destruct (create_subtitle_list (snd response)) as [subs|e] eqn:Hsub;
    [|cbn; rewrite Hsub; reflexivity].
  destruct (random_choice (draw w) (templates w)) as [path|e] eqn:Hpath.
  - destruct (last_subtitle_end subs) as [last_end|e] eqn:Hend;
      cbn; rewrite Hsub; cbn; rewrite tell_all_spec; cbn;
      rewrite Hend; cbn; rewrite ?app_nil_r; reflexivity.
  - destruct e; cbn; rewrite Hsub; reflexivity.
Qed.

Lemma not_in_clips (subs : list SubtitleEntry) (p : string) :
  ~ In (EvWriteVideo p) (map EvSubtitleClip subs).
Proof.
  intros H. apply in_map_iff in H. destruct H as (e & He & _). discriminate.
Qed.

(** ** X10 *)

(** X10: the video is written only at the end of a run in which the
    speech request succeeded, the segmentation returned at least one
    entry and a template was listed; it is written to [out/<output>],
    over the video opened from that template. *)
Theorem video_written_only_when_all_succeeded (w : world)
    (text output p : string) :
  In (EvWriteVideo p) (fst (main w text output)) ->
  p = ("out/" ++ output)%string /\
  snd (main w text output) = Ok tt /\
  exists response subs path,
    speech w text PETER_GRIFFIN_VOICE_ID = Ok response /\
    create_subtitle_list (snd response) = Ok subs /\
    subs <> [] /\
    In path (templates w) /\
    In (EvOpenVideo ("templates/" ++ path)) (fst (main w text output)).
Proof.
  pose proof (main_cases w text output) as Hm. cbv zeta in Hm.
  destruct (speech w text PETER_GRIFFIN_VOICE_ID) as [response|e] eqn:Hsp.
  2: { rewrite Hm. simpl. intros [H|[]]. discriminate. }
  destruct (create_subtitle_list (snd response)) as [subs|e] eqn:Hsub.
  2: { rewrite Hm. simpl. intros [H|[H|[]]]; discriminate. }
  destruct (random_choice (draw w) (templates w)) as [path|e] eqn:Hpath.
  2: { assert (Hno : ~ In (EvWriteVideo p) (fst (main w text output))).
       { destruct e; rewrite Hm; simpl;
           intros H; repeat (destruct H as [H|H]; try discriminate);
           exact H. }
       intros H. contradiction. }
  destruct (last_subtitle_end subs) as [last_end|e] eqn:Hend.
  2: { rewrite Hm. simpl. intros H.
       repeat (destruct H as [H|H]; try discriminate).
       apply not_in_clips in H. contradiction. }
  rewrite Hm. cbn [fst snd]. intros H.
  split; [|split; [reflexivity|]].
  - simpl in H. repeat (destruct H as [H|H]; try discriminate).
    apply in_app_or in H. destruct H as [H|H].
    + apply not_in_clips in H. contradiction.
    + simpl in H. repeat (destruct H as [H|H]; try discriminate).
      * injection H as <-. reflexivity.
      * destruct H.
  - exists response, subs, path. split; [reflexivity|].
    split; [exact Hsub|]. split; [|split].
    + intros ->. discriminate.
    + eapply random_choice_In. exact Hpath.
    + simpl. tauto.
Qed.

Lemma video_written_only_when_all_succeeded_witness :
  snd (main (World (fun _ _ => Ok ([], hi_there_alignment))
                   ["background.mp4"%string] 0)
            "hi there" "default.mp4") = Ok tt.
Proof.
  apply (@video_written_only_when_all_succeeded
           (World (fun _ _ => Ok ([], hi_there_alignment))
                  ["background.mp4"%string] 0)
           "hi there" "default.mp4" "out/default.mp4").
  vm_compute. tauto.
Defined.

(** ** X11 *)

(** X11: a failure of the speech request ends the run at once, with
    nothing printed; an [IndexError] of the segmentation ends it before
    the templates are listed.  Neither is caught. *)
Theorem early_failures_are_not_caught (w : world) (text output : string) :
  (forall e,
      speech w text PETER_GRIFFIN_VOICE_ID = Raise e ->
      main w text output
      = ([EvSynthesize text PETER_GRIFFIN_VOICE_ID], Raise e)) /\
  (forall response k,
      speech w text PETER_GRIFFIN_VOICE_ID = Ok response ->
      unguarded_lookup (snd response) k ->
      main w text output
      = ([ EvSynthesize text PETER_GRIFFIN_VOICE_ID;
           EvPrint ("Generated audio with "
                    ++ string_of_nat (length (characters (snd response)))
                    ++ " word timestamps") ],
         Raise IndexError)).
Proof.
  pose proof (main_cases w text output) as Hm. cbv zeta in Hm. split.
  - intros e He. rewrite He in Hm. exact Hm.
  - intros response k Hr Hk. rewrite Hr in Hm.
    rewrite (raises_at_unguarded_lookup Hk) in Hm. exact Hm.
Qed.

Lemma early_failures_are_not_caught_witness :
  main (World (fun _ _ => Raise (ExternalError "401")) [] 0)
       "hi" "default.mp4"
  = ([EvSynthesize "hi" PETER_GRIFFIN_VOICE_ID],
     Raise (ExternalError "401")) /\
  main (World (fun _ _ => Ok ([], short_start_times)) [] 0)
       "a " "default.mp4"
  = ([ EvSynthesize "a " PETER_GRIFFIN_VOICE_ID;
       EvPrint "Generated audio with 2 word timestamps" ],
     Raise IndexError).
Proof.
  split.
  - apply (proj1 (early_failures_are_not_caught
                    (World (fun _ _ => Raise (ExternalError "401")) [] 0)
                    "hi" "default.mp4")).
    reflexivity.
  - apply (proj2 (early_failures_are_not_caught
                    (World (fun _ _ => Ok ([], short_start_times)) [] 0)
                    "a " "default.mp4") ([], short_start_times) 1).
    + reflexivity.
    + split; [simpl; lia|]. split; [reflexivity|].
      intros i Hi. simpl in Hi. assert (i = 0) as -> by lia.
      exists (of_string "a"). split; [reflexivity|discriminate].
Defined.

(** ** X12 *)

(** X12: whatever the size of the video, [crop_video_to_tiktok] crops no
    height: the box starts at the top ([y1] is [0]) and is as high as the
    video; it never starts left of the frame ([x1] is [0] or a positive
    float). *)
Theorem crop_keeps_the_full_height (video_w video_h : Z) (box : crop_box) :
  crop_video_to_tiktok video_w video_h = Fine box ->
  y1 box = PyInt 0 /\
  height box = video_h /\
  (x1 box = PyInt 0 \/
   exists v, x1 box = PyFloat v /\ (0 <? v)%float = true).
Proof.
  unfold crop_video_to_tiktok.
  destruct (float_of_int video_h) as [h_float|]; [|discriminate].
  destruct (int_half video_w) as [x_center|]; [|discriminate].
  destruct (int_half video_h) as [y_center|]; [|discriminate].
  simpl. intros H. injection H as <-. simpl.
  split; [|split; [reflexivity|]].
  - unfold max_0. rewrite float_sub_diag_not_pos. reflexivity.
  - unfold max_0.
    match goal with
    | |- context [if ?c then _ else _] => destruct c eqn:E
    end; eauto.
Qed.

Lemma crop_keeps_the_full_height_witness :
  y1 (CropBox (PyFloat 656.25) (PyInt 0) 607.5 1080) = PyInt 0 /\
  height (CropBox (PyFloat 656.25) (PyInt 0) 607.5 1080) = 1080%Z /\
  (x1 (CropBox (PyFloat 656.25) (PyInt 0) 607.5 1080) = PyInt 0 \/
   exists v, x1 (CropBox (PyFloat 656.25) (PyInt 0) 607.5 1080) = PyFloat v
             /\ (0 <? v)%float = true).
Proof.
  apply (@crop_keeps_the_full_height 1920 1080). vm_compute. reflexivity.
Defined.

(** ** X13 *)

(** X13: the overlay image is half the video high (rounded down), starts
    40 pixels left of the frame, and its lower edge is 100 pixels below
    the lower edge of the video. *)
Theorem overlay_hangs_below_the_frame (video_h : Z) :
  let img := add_peter_image video_h in
  (overlay_y img + overlay_height img = video_h + 100)%Z /\
  overlay_x img = (-40)%Z /\
  (2 * overlay_height img <= video_h <= 2 * overlay_height img + 1)%Z.
Proof.
  unfold add_peter_image.
  cbn [overlay_y overlay_height overlay_x].
  pose proof (Z.div_mod video_h 2 ltac:(lia)).
  pose proof (Z.mod_pos_bound video_h 2 ltac:(lia)).
  lia.
Qed.
